(** * dataflowkit/fetch: the Fetcher abstraction and its two strategies

    A shallow embedding of [package fetch] (BaseFetcher, ChromeFetcher,
    parseFormData, runBatch, Request.getURL) and the properties of the
    specification checked against it.

    Go strings are byte sequences: they are modelled by [string], whose
    characters are the 256 byte values.  The functions of the Go standard
    library that the package calls on strings ([strings.TrimSpace],
    [strings.TrimRight], [strings.Split], [url.QueryEscape],
    [url.Values.Encode], [strconv.Itoa]) are written out; the network, the
    URL parser, the configuration provider and the Chrome debugging protocol
    are an environment of oracles, and every call to them is recorded in a
    trace together with its reply. *)

From Stdlib Require Import ZArith Ascii String List Lia DecimalString.
From stdpp Require Import base option list gmap strings sorting.
Import ListNotations.

Local Open Scope stdpp_scope.

(** ** Bytes and strings *)

Definition bytes (s : string) : list ascii := list_ascii_of_string s.
Definition of_bytes (l : list ascii) : string := string_of_list_ascii l.
Definition byte (n : nat) : ascii := ascii_of_nat n.

(** [len(s)]: the number of bytes. *)
Definition len (s : string) : nat := String.length s.

Lemma bytes_of_bytes l : bytes (of_bytes l) = l.
Proof. apply list_ascii_of_string_of_list_ascii. Qed.

Lemma of_bytes_bytes s : of_bytes (bytes s) = s.
Proof. apply string_of_list_ascii_of_string. Qed.

Lemma of_bytes_app l1 l2 : of_bytes (l1 ++ l2) = of_bytes l1 +:+ of_bytes l2.
Proof. induction l1 as [|a l1 IH]; simpl; [done | by rewrite IH]. Qed.

Lemma len_of_bytes l : len (of_bytes l) = length l.
Proof. induction l as [|a l IH]; simpl; [done | by rewrite <- IH]. Qed.

(** ** Package strings *)

Module strings.

(** The UTF-8 encodings of the code points for which [unicode.IsSpace]
  holds: tab, LF, VT, FF, CR, space, U+0085, U+00A0, U+1680,
  U+2000..U+200A, U+2028, U+2029, U+202F, U+205F, U+3000.  A rune decoded
  at either end of a string is a space exactly when the string starts
  (ends) with one of these byte sequences. *)
Definition whiteSpace : list (list ascii) :=
map (map byte)
  [ [9]; [10]; [11]; [12]; [13]; [32];
    [194; 133]; [194; 160]; [225; 154; 128];
    [226; 128; 128]; [226; 128; 129]; [226; 128; 130]; [226; 128; 131];
    [226; 128; 132]; [226; 128; 133]; [226; 128; 134]; [226; 128; 135];
    [226; 128; 136]; [226; 128; 137]; [226; 128; 138];
    [226; 128; 168]; [226; 128; 169]; [226; 128; 175];
    [226; 129; 159]; [227; 128; 128] ].

(** [strip_prefix p s]: [s] without its prefix [p], when it has it. *)
Fixpoint strip_prefix (p s : list ascii) : option (list ascii) :=
match p, s with
| [], _ => Some s
| a :: p', b :: s' => if Ascii.eqb a b then strip_prefix p' s' else None
| _ :: _, [] => None
end.

(** The rest of [s] after the first token of [toks] it starts with. *)
Fixpoint cut_first (toks : list (list ascii)) (s : list ascii)
: option (list ascii) :=
match toks with
| [] => None
| t :: ts =>
    match strip_prefix t s with
    | Some r => Some r
    | None => cut_first ts s
    end
end.

(** The loop of [TrimLeftFunc]: drop leading tokens while there is one. *)
Fixpoint trim_left (toks : list (list ascii)) (fuel : nat) (s : list ascii)
: list ascii :=
match fuel with
| O => s
| S n =>
    match cut_first toks s with
    | Some r => trim_left toks n r
    | None => s
    end
end.

Definition trimLeft (toks : list (list ascii)) (s : list ascii) : list ascii :=
trim_left toks (length s) s.

(** Trimming at the right end is trimming the reversed string at the left
  with the reversed tokens. *)
Definition trimRight (toks : list (list ascii)) (s : list ascii) : list ascii :=
rev (trimLeft (map (@rev ascii) toks) (rev s)).

(** [strings.TrimSpace(s)] is [TrimRightFunc(TrimLeftFunc(s, IsSpace), IsSpace)]. *)
Definition TrimSpace (s : string) : string :=
of_bytes (trimRight whiteSpace (trimLeft whiteSpace (bytes s))).

(** [strings.TrimRight(s, cutset)] for a cutset of ASCII bytes (the package
  only uses the cutset "/"): trailing bytes of the cutset are removed. *)
Definition cutsetTokens (cutset : string) : list (list ascii) :=
map (fun c => [c]) (bytes cutset).

Definition TrimRight (s cutset : string) : string :=
of_bytes (trimRight (cutsetTokens cutset) (bytes s)).

(** [strings.Split(s, sep)] for a one-byte separator: the substrings
  between the separators, never an empty slice. *)
Fixpoint split_byte (sep : ascii) (s : list ascii) : list (list ascii) :=
match s with
| [] => [[]]
| c :: t =>
    if Ascii.eqb c sep then [] :: split_byte sep t
    else match split_byte sep t with
         | hd :: tl => (c :: hd) :: tl
         | [] => [[c]]
         end
end.

Definition Split (s : string) (sep : ascii) : list string :=
map of_bytes (split_byte sep (bytes s)).

End strings.

(** ** The Request *)

Record Request := {
  Type_ : string;
  URL : string;
  Method : string;
  FormData : string;
  UserToken : string;
  InfiniteScroll : bool
}.

(** [func (req Request) getURL() string] *)
Definition getURL (req : Request) : string :=
  strings.TrimRight (strings.TrimSpace (URL req)) "/".

Definition mkReq (u m fd : string) : Request :=
  {| Type_ := ""; URL := u; Method := m; FormData := fd;
     UserToken := ""; InfiniteScroll := false |}.

Definition withURL (req : Request) (u : string) : Request :=
  {| Type_ := Type_ req; URL := u; Method := Method req;
     FormData := FormData req; UserToken := UserToken req;
     InfiniteScroll := InfiniteScroll req |}.

Example getURL_ex1 : getURL (mkReq "  http://example.com/a// " "GET" "") = "http://example.com/a".
Proof. reflexivity. Qed.

Example getURL_ex2 : getURL (mkReq "a /" "GET" "") = "a ".
Proof. reflexivity. Qed.

Example split_ex : strings.Split "user=a&pass=b&" "&" = ["user=a"; "pass=b"; ""].
Proof. reflexivity. Qed.

(** ** Trimming: general facts *)

Section trimming.
Import strings.

Definition startsWith (toks : list (list ascii)) (s : list ascii) : bool :=
  bool_decide (is_Some (cut_first toks s)).

Definition endsWith (toks : list (list ascii)) (s : list ascii) : bool :=
  startsWith (map (@rev ascii) toks) (rev s).

(** A run of tokens: a concatenation of members of [toks]. *)
Definition runOf (toks : list (list ascii)) (l : list ascii) : Prop :=
  ∃ ts, Forall (λ t, t ∈ toks) ts ∧ l = concat ts.

Lemma strip_prefix_Some p s r : strip_prefix p s = Some r ↔ s = p ++ r.
Proof.
  revert s. induction p as [|a p IH]; intros s; simpl.
  - split; [by intros [= ->] | by intros ->].
  - destruct s as [|b s]; [split; [done | by intros [=]] |].
    destruct (Ascii.eqb_spec a b) as [->|Hne].
    + rewrite IH. split; [by intros -> | by intros [= ->]].
    + split; [done | intros [= ? ?]; congruence].
Qed.

Lemma cut_first_Some toks s r :
  cut_first toks s = Some r → ∃ t, t ∈ toks ∧ s = t ++ r.
Proof.
  induction toks as [|t ts IH]; simpl; [done |].
  destruct (strip_prefix t s) as [r'|] eqn:E.
  - intros [= ->]. apply strip_prefix_Some in E. exists t. split; [left | done].
  - intros H. destruct (IH H) as (t' & Hin & ->). exists t'. split; [by right | done].
Qed.

Lemma cut_first_None toks s :
  cut_first toks s = None ↔ ∀ t, t ∈ toks → strip_prefix t s = None.
Proof.
  induction toks as [|t ts IH]; simpl.
  - split; [intros _ t Ht; inversion Ht | done].
  - destruct (strip_prefix t s) as [r|] eqn:E.
    + split; [done |]. intros H. specialize (H t ltac:(left)). congruence.
    + rewrite IH. split.
      * intros H t' Ht'. inversion Ht'; subst; auto.
      * intros H t' Ht'. apply H. by right.
Qed.

(** A token at the front of a prefix is at the front of the whole. *)
Lemma cut_first_None_prefix toks p q :
  cut_first toks (p ++ q) = None → cut_first toks p = None.
Proof.
  rewrite !cut_first_None. intros H t Ht. specialize (H t Ht).
  destruct (strip_prefix t p) as [r|] eqn:E; [| done].
  apply strip_prefix_Some in E. subst p.
  assert (strip_prefix t ((t ++ r) ++ q) = Some (r ++ q)) as E'.
  { apply strip_prefix_Some. by rewrite <- app_assoc. }
  congruence.
Qed.

Lemma trim_left_id toks n s : cut_first toks s = None → trim_left toks n s = s.
Proof. destruct n; simpl; [done | by intros ->]. Qed.

Lemma trim_left_decomp toks n s :
  ∃ l, runOf toks l ∧ s = l ++ trim_left toks n s.
Proof.
  revert s. induction n as [|n IH]; intros s; simpl.
  - exists []. split; [by exists [] | done].
  - destruct (cut_first toks s) as [r|] eqn:E.
    + destruct (cut_first_Some _ _ _ E) as (t & Ht & ->).
      destruct (IH r) as (l & (ts & Hts & ->) & Hr).
      exists (t ++ concat ts). split.
      * exists (t :: ts). split; [by constructor | done].
      * rewrite <- app_assoc. by rewrite <- Hr.
    + exists []. split; [by exists [] | done].
Qed.

Lemma trim_left_length toks n s : length (trim_left toks n s) ≤ length s.
Proof.
  destruct (trim_left_decomp toks n s) as (l & _ & H).
  rewrite H at 2. rewrite length_app. lia.
Qed.

Section nonempty.
Context (toks : list (list ascii)) (Hne : Forall (λ t, t ≠ []) toks).

Lemma cut_first_shorter s r : cut_first toks s = Some r → length r < length s.
Proof.
  intros E. destruct (cut_first_Some _ _ _ E) as (t & Ht & ->).
  rewrite Forall_forall in Hne. specialize (Hne t Ht).
  destruct t; [done |]. rewrite length_app. simpl. lia.
Qed.

Lemma trim_left_done n s :
  length s ≤ n → cut_first toks (trim_left toks n s) = None.
Proof.
  revert s. induction n as [|n IH]; intros s Hn; simpl.
  - destruct (cut_first toks s) as [r|] eqn:E; [| done].
    apply cut_first_shorter in E. lia.
  - destruct (cut_first toks s) as [r|] eqn:E; [| done].
    apply IH. apply cut_first_shorter in E. lia.
Qed.

Lemma trimLeft_done s : startsWith toks (trimLeft toks s) = false.
Proof.
  unfold startsWith, trimLeft. rewrite trim_left_done; [| done].
  apply bool_decide_eq_false. by intros [? ?].
Qed.

Lemma trimLeft_shorter s :
  startsWith toks s = true → length (trimLeft toks s) < length s.
Proof.
  unfold startsWith, trimLeft. intros H. apply bool_decide_eq_true in H.
  destruct H as [r E]. pose proof (cut_first_shorter _ _ E) as Hlt.
  destruct (length s) as [|n] eqn:El; [lia |]. simpl. rewrite E.
  pose proof (trim_left_length toks n r). lia.
Qed.
End nonempty.

Lemma trimLeft_id toks s : startsWith toks s = false → trimLeft toks s = s.
Proof.
  unfold startsWith, trimLeft. intros H. apply bool_decide_eq_false in H.
  apply trim_left_id. destruct (cut_first toks s); [| done].
  exfalso. apply H. by eexists.
Qed.

Lemma startsWith_prefix toks p q :
  startsWith toks (p ++ q) = false → startsWith toks p = false.
Proof.
  unfold startsWith. intros H. apply bool_decide_eq_false in H.
  apply bool_decide_eq_false. intros [r E]. apply H.
  destruct (cut_first toks (p ++ q)) eqn:E'; [by eexists |].
  apply cut_first_None_prefix in E'. congruence.
Qed.

Lemma trimLeft_decomp toks s : ∃ l, runOf toks l ∧ s = l ++ trimLeft toks s.
Proof. apply trim_left_decomp. Qed.

Lemma runOf_rev toks l : runOf (map (@rev ascii) toks) l → runOf toks (rev l).
Proof.
  intros (ts & Hts & ->). exists (rev (map (@rev ascii) ts)). split.
  - apply Forall_rev. rewrite Forall_map. eapply Forall_impl; [exact Hts |].
    intros t Ht. simpl. apply list_elem_of_fmap in Ht as (t' & -> & Ht').
    by rewrite rev_involutive.
  - clear Hts. induction ts as [|t ts IH]; simpl; [done |].
    rewrite rev_app_distr, IH, concat_app. simpl.
    by rewrite app_nil_r.
Qed.

Lemma trimRight_decomp toks s : ∃ l, runOf toks l ∧ s = trimRight toks s ++ l.
Proof.
  unfold trimRight.
  destruct (trimLeft_decomp (map (@rev ascii) toks) (rev s)) as (l & Hl & E).
  exists (rev l). split; [by apply runOf_rev |].
  rewrite <- rev_app_distr, <- E. by rewrite rev_involutive.
Qed.

Lemma Forall_nonempty_rev toks :
  Forall (λ t : list ascii, t ≠ []) toks →
  Forall (λ t : list ascii, t ≠ []) (map (@rev ascii) toks).
Proof.
  intros H. rewrite Forall_map. eapply Forall_impl; [exact H |].
  intros t Ht. simpl. destruct t; [done |]. simpl.
  intros E. by apply app_eq_nil in E as [_ ?].
Qed.

Lemma trimRight_done toks s :
  Forall (λ t, t ≠ []) toks → endsWith toks (trimRight toks s) = false.
Proof.
  intros H. unfold endsWith, trimRight. rewrite rev_involutive.
  apply trimLeft_done. by apply Forall_nonempty_rev.
Qed.

Lemma trimRight_id toks s : endsWith toks s = false → trimRight toks s = s.
Proof.
  unfold endsWith, trimRight. intros H. rewrite trimLeft_id; [| done].
  apply rev_involutive.
Qed.

Lemma trimRight_shorter toks s :
  Forall (λ t, t ≠ []) toks →
  endsWith toks s = true → length (trimRight toks s) < length s.
Proof.
  intros Hne H. unfold trimRight. rewrite length_rev.
  rewrite <- (length_rev s). apply trimLeft_shorter; [| done].
  by apply Forall_nonempty_rev.
Qed.

Lemma trimRight_length toks s : length (trimRight toks s) ≤ length s.
Proof.
  unfold trimRight, trimLeft. rewrite length_rev.
  etransitivity; [apply trim_left_length | by rewrite length_rev].
Qed.

(** Trimming the right end leaves a prefix, so nothing new appears at
    the left end. *)
Lemma trimRight_startsWith toks toks' s :
  startsWith toks s = false → startsWith toks (trimRight toks' s) = false.
Proof.
  intros H. destruct (trimRight_decomp toks' s) as (l & _ & E).
  rewrite E in H. by apply startsWith_prefix in H.
Qed.
End trimming.

(** ** URL normalization *)

Definition slash : list (list ascii) := strings.cutsetTokens "/".

Definition startsWithSpace (s : string) : bool := startsWith strings.whiteSpace (bytes s).
Definition endsWithSpace (s : string) : bool := endsWith strings.whiteSpace (bytes s).
Definition endsWithSlash (s : string) : bool := endsWith slash (bytes s).

(** A string made of white space only, and one made of slashes only. *)
Definition spaceRun (s : string) : Prop := runOf strings.whiteSpace (bytes s).
Definition slashRun (s : string) : Prop := Forall (λ c, c = "/"%char) (bytes s).

Lemma whiteSpace_nonempty : Forall (λ t : list ascii, t ≠ []) strings.whiteSpace.
Proof. unfold strings.whiteSpace. simpl. repeat constructor; discriminate. Qed.

Lemma slash_nonempty : Forall (λ t : list ascii, t ≠ []) slash.
Proof. repeat constructor; discriminate. Qed.

Lemma runOf_slash l : runOf slash l → Forall (λ c, c = "/"%char) l.
Proof.
  intros (ts & Hts & ->). induction Hts as [|t ts Ht _ IH]; simpl; [constructor |].
  apply Forall_app. split; [| exact IH].
  apply list_elem_of_singleton in Ht. subst t. by repeat constructor.
Qed.

Lemma getURL_bytes req :
  bytes (getURL req) =
  strings.trimRight slash
    (strings.trimRight strings.whiteSpace
       (strings.trimLeft strings.whiteSpace (bytes (URL req)))).
Proof.
  unfold getURL, strings.TrimRight, strings.TrimSpace. by rewrite !bytes_of_bytes.
Qed.

Lemma getURL_startsWithSpace req : startsWithSpace (getURL req) = false.
Proof.
  unfold startsWithSpace. rewrite getURL_bytes.
  do 2 apply trimRight_startsWith. apply trimLeft_done, whiteSpace_nonempty.
Qed.

Lemma getURL_endsWithSlash req : endsWithSlash (getURL req) = false.
Proof.
  unfold endsWithSlash. rewrite getURL_bytes. apply trimRight_done, slash_nonempty.
Qed.

Lemma getURL_decomp req :
  ∃ l sl t, URL req = l +:+ getURL req +:+ sl +:+ t
            ∧ spaceRun l ∧ slashRun sl ∧ spaceRun t.
Proof.
  destruct (trimLeft_decomp strings.whiteSpace (bytes (URL req))) as (l & Hl & El).
  set (x := strings.trimLeft strings.whiteSpace (bytes (URL req))) in *.
  destruct (trimRight_decomp strings.whiteSpace x) as (t & Ht & Et).
  set (y := strings.trimRight strings.whiteSpace x) in *.
  destruct (trimRight_decomp slash y) as (sl & Hsl & Esl).
  exists (of_bytes l), (of_bytes sl), (of_bytes t).
  unfold spaceRun, slashRun. rewrite !bytes_of_bytes.
  split; [| by auto using runOf_slash].
  rewrite <- (of_bytes_bytes (getURL req)), getURL_bytes.
  fold x. fold y. rewrite <- !of_bytes_app, <- (of_bytes_bytes (URL req)).
  f_equal. rewrite El, Et at 1. rewrite Esl at 1. by rewrite <- !app_assoc.
Qed.

Lemma getURL_fixed req :
  getURL (withURL req (getURL req)) = getURL req ↔ endsWithSpace (getURL req) = false.
Proof.
  pose proof (getURL_startsWithSpace req) as Hs.
  pose proof (getURL_endsWithSlash req) as Hsl.
  unfold startsWithSpace, endsWithSlash, endsWithSpace in *.
  split.
  - intros E. destruct (endsWith strings.whiteSpace (bytes (getURL req))) eqn:Hw; [| done].
    exfalso. apply (f_equal (λ s, length (bytes s))) in E.
    rewrite (getURL_bytes (withURL _ _)) in E. cbn [URL withURL] in E.
    rewrite (trimLeft_id _ _ Hs) in E.
    pose proof (trimRight_shorter _ _ whiteSpace_nonempty Hw) as Hlt.
    pose proof (trimRight_length slash
      (strings.trimRight strings.whiteSpace (bytes (getURL req)))) as Hle.
    lia.
  - intros Hw. rewrite <- (of_bytes_bytes (getURL (withURL _ _))).
    rewrite <- (of_bytes_bytes (getURL req)) at 2. f_equal.
    rewrite (getURL_bytes (withURL _ _)). cbn [URL withURL].
    by rewrite (trimLeft_id _ _ Hs), (trimRight_id _ _ Hw), (trimRight_id _ _ Hsl).
Qed.

(** C5 (as stated, refuted): normalizing a URL with white space before its
    trailing slash a second time gives a different string, and the first
    result still ends in white space. *)
Lemma getURL_not_idempotent :
  let req := mkReq "a /" "GET" "" in
  getURL req = "a " ∧ getURL (withURL req (getURL req)) = "a"
  ∧ getURL (withURL req (getURL req)) ≠ getURL req.
Proof. vm_compute. repeat split; discriminate. Qed.

(** C5 (amended): [getURL] only removes white space at both ends and the
    slashes that end the white-space-trimmed URL, so the URL is white space,
    the result, slashes, white space, in this order; the result never starts
    with white space and never ends with a slash; normalizing it again gives
    the same string exactly when it does not end with white space. *)
Theorem getURL_normal_form (req : Request) :
  (∃ l sl t, URL req = l +:+ getURL req +:+ sl +:+ t
             ∧ spaceRun l ∧ slashRun sl ∧ spaceRun t)
  ∧ startsWithSpace (getURL req) = false
  ∧ endsWithSlash (getURL req) = false
  ∧ (getURL (withURL req (getURL req)) = getURL req
     ↔ endsWithSpace (getURL req) = false).
Proof.
  split; [apply getURL_decomp |].
  split; [apply getURL_startsWithSpace |].
  split; [apply getURL_endsWithSlash | apply getURL_fixed].
Qed.

(** ** Outcomes of Go code *)

(** Errors produced by the libraries (net/url, net/http, cdp, rpcc, os);
    [DeadlineExceeded] is [context.DeadlineExceeded]. *)
Inductive liberr :=
  | LibErr (msg : string)
  | DeadlineExceeded.

(** The error values [Fetch] returns: the types of package errs, or a
    library error passed on as it is. *)
Inductive error :=
  | BadRequest (cause : option liberr)
  | NotFound (url : string)
  | Forbidden (url : string)
  | Unauthorized
  | ProxyAuthenticationRequired
  | InternalServerError
  | BadGateway
  | GatewayTimeout
  | ErrsError (msg : string)
  | Lib (e : liberr).

(** Run-time panics; [UnhandledType t] is the panic of
    [logger.Panicf("unhandled type: %#v", t)]. *)
Inductive panic :=
  | IndexOutOfRange (index length : nat)
  | NilDereference
  | PanicErr (e : liberr)
  | UnhandledType (t : string).

Inductive outcome (A : Type) :=
  | Ok (a : A)
  | Err (e : error)
  | Panic (p : panic).
Arguments Ok {A} a.
Arguments Err {A} e.
Arguments Panic {A} p.

(** ** Packages strconv and net/url *)

Module strconv.
(** [strconv.Itoa] on a non-negative int. *)
Definition Itoa (n : nat) : string := NilEmpty.string_of_uint (Nat.to_uint n).
End strconv.

Module url.

(** [url.Values] is [map[string][]string]. *)
Definition Values := gmap string (list string).

(** [func (v Values) Add(key, value string)]: [v[key] = append(v[key], value)]. *)
Definition Add (v : Values) (key value : string) : Values :=
  <[key := v !!! key ++ [value]]> v.

Definition in_range (lo hi c : ascii) : bool :=
  (nat_of_ascii lo <=? nat_of_ascii c)%nat && (nat_of_ascii c <=? nat_of_ascii hi)%nat.

(** [shouldEscape(c, encodeQueryComponent)]: only letters, digits and
    [-_.~] are left as they are. *)
Definition shouldEscape (c : ascii) : bool :=
  negb (in_range "a" "z" c || in_range "A" "Z" c || in_range "0" "9" c
        || bool_decide (c ∈ ["-"; "_"; "."; "~"]%char)).

Definition upperhex (n : nat) : ascii :=
  nth n (bytes "0123456789ABCDEF") "0"%char.

(** [escape(s, encodeQueryComponent)], byte by byte. *)
Definition escape_byte (c : ascii) : list ascii :=
  if shouldEscape c then
    if Ascii.eqb c " " then ["+"%char]
    else ["%"%char; upperhex (nat_of_ascii c / 16); upperhex (nat_of_ascii c mod 16)]
  else [c].

Definition QueryEscape (s : string) : string :=
  of_bytes (flat_map escape_byte (bytes s)).

(** [sort.Strings]: ascending byte-wise order. *)
Definition sortStrings (l : list string) : list string := merge_sort String.le l.

Fixpoint join (sep : string) (l : list string) : string :=
  match l with
  | [] => ""
  | [x] => x
  | x :: r => x +:+ sep +:+ join sep r
  end.

(** [func (v Values) Encode() string]: the keys in sorted order, for each
    key its values in order, every pair written [key=value] escaped, the
    pairs joined by [&]. *)
Definition Encode (v : Values) : string :=
  join "&"
    (flat_map
       (λ k, map (λ x, QueryEscape k +:+ "=" +:+ QueryEscape x) (v !!! k))
       (sortStrings (map fst (map_to_list v)))).

End url.

(** ** parseFormData *)

(** The loop body: [kv := strings.Split(pair, "="); formData.Add(kv[0], kv[1])].
    Indexing a slice out of range panics. *)
Definition index (kv : list string) (i : nat) : outcome string :=
  match kv !! i with
  | Some x => Ok x
  | None => Panic (IndexOutOfRange i (length kv))
  end.

Definition addPair (formData : url.Values) (pair : string) : outcome url.Values :=
  let kv := strings.Split pair "=" in
  match index kv 0 with
  | Ok k =>
      match index kv 1 with
      | Ok v => Ok (url.Add formData k v)
      | Err e => Err e
      | Panic p => Panic p
      end
  | Err e => Err e
  | Panic p => Panic p
  end.

Fixpoint addPairs (formData : url.Values) (pairs : list string) : outcome url.Values :=
  match pairs with
  | [] => Ok formData
  | pr :: rest =>
      match addPair formData pr with
      | Ok formData' => addPairs formData' rest
      | Err e => Err e
      | Panic p => Panic p
      end
  end.

(** [func parseFormData(fd string) url.Values] *)
Definition parseFormData (fd : string) : outcome url.Values :=
  addPairs ∅ (strings.Split fd "&").

Definition encoded (fd : string) : option string :=
  match parseFormData fd with Ok v => Some (url.Encode v) | _ => None end.

Example encode_ex1 : encoded "user=a&pass=b" = Some "pass=b&user=a".
Proof. vm_compute. reflexivity. Qed.

Example encode_ex2 : encoded "k=a b&k=%2F&a=b=c" = Some "a=b&k=a+b&k=%252F".
Proof. vm_compute. reflexivity. Qed.

Example parse_ex3 : parseFormData "key" = Panic (IndexOutOfRange 1 1).
Proof. vm_compute. reflexivity. Qed.

Example itoa_ex : strconv.Itoa 13 = "13" ∧ strconv.Itoa 0 = "0".
Proof. vm_compute. done. Qed.

(** ** Form data: when parsing panics *)

(** A pair with an equals sign. *)
Definition hasEq (pr : string) : Prop := "="%char ∈ bytes pr.

Lemma split_byte_nonempty sep s : strings.split_byte sep s ≠ [].
Proof.
  destruct s as [|c t]; simpl; [done |].
  destruct (Ascii.eqb c sep); [done |]. by destruct (strings.split_byte sep t).
Qed.

Lemma split_byte_absent sep s : sep ∉ s → strings.split_byte sep s = [s].
Proof.
  induction s as [|c t IH]; simpl; [done |]. intros Hn.
  destruct (Ascii.eqb_spec c sep) as [->|Hne].
  - exfalso. apply Hn. left.
  - rewrite IH; [done |]. intros Hin. apply Hn. by right.
Qed.

Lemma split_byte_present sep s :
  sep ∈ s → ∃ a b r, strings.split_byte sep s = a :: b :: r.
Proof.
  induction s as [|c t IH]; simpl; [by intros ?%elem_of_nil |]. intros Hin.
  destruct (Ascii.eqb_spec c sep) as [->|Hne].
  - destruct (strings.split_byte sep t) as [|b r] eqn:E.
    + by apply split_byte_nonempty in E.
    + by exists [], b, r.
  - apply elem_of_cons in Hin as [->|Hin]; [done |].
    destruct (IH Hin) as (a & b & r & ->). by exists (c :: a), b, r.
Qed.

Lemma addPair_hasEq m pr : hasEq pr → ∃ v, addPair m pr = Ok v.
Proof.
  unfold hasEq, addPair, strings.Split. intros H.
  destruct (split_byte_present _ _ H) as (a & b & r & ->). simpl. by eexists.
Qed.

Lemma addPair_lacksEq m pr : ¬ hasEq pr → addPair m pr = Panic (IndexOutOfRange 1 1).
Proof.
  unfold hasEq, addPair, strings.Split. intros H.
  by rewrite (split_byte_absent _ _ H).
Qed.

Global Instance hasEq_dec pr : Decision (hasEq pr).
Proof. unfold hasEq. apply _. Defined.

Lemma addPairs_cases m l :
  (Forall hasEq l ∧ ∃ v, addPairs m l = Ok v)
  ∨ (Exists (λ pr, ¬ hasEq pr) l ∧ addPairs m l = Panic (IndexOutOfRange 1 1)).
Proof.
  revert m. induction l as [|pr l IH]; intros m; simpl.
  - left. split; [constructor | by eexists].
  - destruct (decide (hasEq pr)) as [H|H].
    + destruct (addPair_hasEq m pr H) as [v ->].
      destruct (IH v) as [[HF Hv]|[HE Hp]].
      * left. split; [by constructor | done].
      * right. split; [by apply Exists_cons_tl | done].
    + right. rewrite (addPair_lacksEq m pr H). split; [by apply Exists_cons_hd | done].
Qed.

Lemma parseFormData_total fd :
  Forall hasEq (strings.Split fd "&") → ∃ v, parseFormData fd = Ok v.
Proof.
  intros HF. unfold parseFormData.
  destruct (addPairs_cases ∅ (strings.Split fd "&")) as [[_ Hv]|[HE _]]; [done |].
  exfalso. apply Exists_exists in HE as (pr & Hin & Hn).
  rewrite Forall_forall in HF. auto.
Qed.

(** C7: [parseFormData] returns a value exactly when every pair of the
    input has an equals sign; as soon as one pair lacks it, [kv[1]] is read
    from a slice of length one and the call panics; "key" is such an
    input. *)
Theorem parseFormData_total_iff :
  (∀ fd, (∃ v, parseFormData fd = Ok v) ↔ Forall hasEq (strings.Split fd "&"))
  ∧ (∀ fd, parseFormData fd = Panic (IndexOutOfRange 1 1)
           ↔ Exists (λ pr, ¬ hasEq pr) (strings.Split fd "&"))
  ∧ parseFormData "key" = Panic (IndexOutOfRange 1 1).
Proof.
  split; [| split; [| by vm_compute]].
  - intros fd. unfold parseFormData.
    destruct (addPairs_cases ∅ (strings.Split fd "&")) as [[HF Hv]|[HE Hp]].
    + done.
    + split; [intros [v Hv]; congruence |].
      intros HF. exfalso. apply Exists_exists in HE as (pr & Hin & Hn).
      rewrite Forall_forall in HF. auto.
  - intros fd. unfold parseFormData.
    destruct (addPairs_cases ∅ (strings.Split fd "&")) as [[HF [v Hv]]|[HE Hp]].
    + split; [congruence |].
      intros HE. exfalso. apply Exists_exists in HE as (pr & Hin & Hn).
      rewrite Forall_forall in HF. auto.
    + done.
Qed.

(** ** The world outside the package *)

(** A cookie jar is an opaque shared object; only its identity matters. *)
Definition Jar := nat.
Definition NodeID := Z.
Definition ScriptID := string.

(** [time.Duration] counts nanoseconds. *)
Definition Second : Z := 1000000000.

(** [*http.Request] as built by [http.NewRequest]. *)
Record HttpRequest := {
  reqMethod : string;
  reqURL : string;
  reqHeader : gmap string (list string);
  reqBody : option string
}.

(** [*http.Response]: the status code and the content of the body stream. *)
Record Response := {
  StatusCode : Z;
  Body : string
}.

(** The four protocol domains that are enabled. *)
Inductive Domain := DOM | Network | Page | Runtime.

(** The context a protocol call is made under: the one [Fetch] creates with
    [context.WithCancel], the one [navigate] derives from it with
    [context.WithTimeout], or [context.Background()]. *)
Inductive Ctx :=
  | CtxFetch
  | CtxTimeout (timeout : Z)
  | CtxBackground.

(** Protocol calls that only return an error. *)
Inductive CdpOp :=
  | Enable (d : Domain)
  | DOMContentEventFired
  | Navigate (url : string)
  | Recv
  | RunScript (id : ScriptID) (awaitPromise : bool).

(** Goroutines started with [go]: the watcher of the abort channel, and the
    interceptor of [navigate], which rewrites the first intercepted request
    to the given method, post data and headers.  Their own steps run
    concurrently and are not part of the trace of the calling goroutine. *)
Inductive Goroutine :=
  | AbortWatcher
  | Interceptor (method postData headers : string).

(** What the calling goroutine does to the outside, in order, each call
    with the reply it got; [EvLog] is [logger.Error(err)]. *)
Inductive Event :=
  | EvBindJar (jar : Jar)
  | EvHttpDo (req : HttpRequest) (reply : liberr + Response)
  | EvDevtGet (endpoint : string) (reply : liberr + string)
  | EvDial (wsurl : string) (reply : option liberr)
  | EvGo (g : Goroutine)
  | EvCdp (c : Ctx) (op : CdpOp) (reply : option liberr)
  | EvGetDocument (c : Ctx) (reply : liberr + NodeID)
  | EvGetOuterHTML (c : Ctx) (node : NodeID) (reply : liberr + string)
  | EvReadFile (path : string) (reply : liberr + string)
  | EvCompileScript (c : Ctx) (expression : string) (reply : liberr + option ScriptID)
  | EvSleep (d : Z)
  | EvStreamClose
  | EvCancel (c : Ctx)
  | EvConnClose
  | EvLog (err : liberr).

(** The oracles.  A reply may depend on everything that happened before
    (the trace so far).  [schedule tr n] tells which of [n] goroutines of a
    batch that are still running returns next. *)
Record Env := {
  viper_GetString : string → string;
  url_ParseRequestURI : string → option liberr;
  url_Parse : string → option liberr;
  http_NewRequest_err : string → string → option liberr;
  client_Do : list Event → HttpRequest → liberr + Response;
  devt_Get : list Event → string → liberr + string;
  rpcc_Dial : list Event → string → option liberr;
  cdp_call : list Event → Ctx → CdpOp → option liberr;
  cdp_GetDocument : list Event → Ctx → liberr + NodeID;
  cdp_GetOuterHTML : list Event → Ctx → NodeID → liberr + string;
  cdp_CompileScript : list Event → Ctx → string → liberr + option ScriptID;
  ioutil_ReadFile : list Event → string → liberr + string;
  schedule : list Event → nat → nat
}.

(** ** The monad: a trace of events and an outcome *)

Definition M (A : Type) : Type := list Event → outcome A * list Event.

Global Instance M_ret : MRet M := λ A a tr, (Ok a, tr).

Global Instance M_bind : MBind M := λ A B k m tr,
  match m tr with
  | (Ok a, tr') => k a tr'
  | (Err e, tr') => (Err e, tr')
  | (Panic p, tr') => (Panic p, tr')
  end.

(** [return nil, e] *)
Definition throw {A} (e : error) : M A := λ tr, (Err e, tr).

Definition raise {A} (p : panic) : M A := λ tr, (Panic p, tr).

Definition lift {A} (o : outcome A) : M A := λ tr, (o, tr).

(** A call to the outside: ask the oracle, record call and reply. *)
Definition perform {R} (ask : list Event → R) (ev : R → Event) : M R :=
  λ tr, let r := ask tr in (Ok r, tr ++ [ev r]).

Definition emit (ev : Event) : M unit := λ tr, (Ok tt, tr ++ [ev]).

(** [defer]: the deferred calls run when the body is left, however it is
    left. *)
Definition defer {A} (deferred : list Event) (body : M A) : M A :=
  λ tr, let '(o, tr') := body tr in (o, tr' ++ deferred).

(** [if err != nil { return nil, err }] *)
Definition returnErr (err : option liberr) : M unit :=
  match err with
  | Some e => throw (Lib e)
  | None => mret tt
  end.

(** Reading a field through a pointer that may be nil. *)
Definition deref {A} (p : option A) : M A :=
  match p with
  | Some a => mret a
  | None => raise NilDereference
  end.

Definition run {A} (m : M A) : outcome A * list Event := m [].

(** ** The fetchers *)

(** [*http.Client]: its transport's proxy, when one is configured. *)
Record Client := { Proxy : option string }.

Record BaseFetcher := {
  bf_client : Client;
  bf_jar : option Jar
}.

Record ChromeFetcher := {
  cf_client : Client;
  cf_jar : option Jar
}.

(** The status codes the switch of [response] names, in its order. *)
Definition statusError (code : Z) (url : string) : error :=
  if decide (code = 404%Z) then NotFound url
  else if decide (code = 403%Z) then Forbidden url
  else if decide (code = 400%Z) then BadRequest None
  else if decide (code = 401%Z) then Unauthorized
  else if decide (code = 407%Z) then ProxyAuthenticationRequired
  else if decide (code = 500%Z) then InternalServerError
  else if decide (code = 502%Z) then BadGateway
  else if decide (code = 504%Z) then GatewayTimeout
  else ErrsError "Unknown Error".

Section fetch.
Context (env : Env).

(** [http.NewRequest(method, url, body)]: fails on a method or URL it
    does not accept; an empty method means GET; the header starts empty. *)
Definition http_NewRequest (method url : string) (body : option string)
  : liberr + HttpRequest :=
  match http_NewRequest_err env method url with
  | Some err => inl err
  | None =>
      inr {| reqMethod := if decide (method = "") then "GET" else method;
             reqURL := url; reqHeader := ∅; reqBody := body |}
  end.

(** [req.Header.Add(key, value)] for a key in canonical form. *)
Definition Header_Add (req : HttpRequest) (key value : string) : HttpRequest :=
  {| reqMethod := reqMethod req; reqURL := reqURL req;
     reqHeader := url.Add (reqHeader req) key value;
     reqBody := reqBody req |}.

(** [f.client.Jar = f.jar] when the fetcher has a jar. *)
Definition bindJar (jar : option Jar) : M unit :=
  match jar with
  | Some j => emit (EvBindJar j)
  | None => mret tt
  end.

(** The request [response] builds (its [if r.FormData == ""] statement):
    without form data, the method of the Request and no body; with form
    data, a POST of the encoded pairs. *)
Definition newRequest (r : Request) : outcome HttpRequest :=
  if decide (FormData r = "") then
    match http_NewRequest (Method r) (URL r) None with
    | inl err => Err (Lib err)
    | inr req => Ok req
    end
  else
    match parseFormData (FormData r) with
    | Ok formData =>
        match http_NewRequest "POST" (URL r) (Some (url.Encode formData)) with
        | inl err => Err (Lib err)
        | inr req =>
            let req := Header_Add req "Content-Type"
                         "application/x-www-form-urlencoded" in
            let req := Header_Add req "Content-Length"
                         (strconv.Itoa (len (url.Encode formData))) in
            Ok req
        end
    | Err e => Err e
    | Panic p => Panic p
    end.

(** [func (bf *BaseFetcher) response(r Request)], returning the response
    or an error. *)
Definition response (bf : option BaseFetcher) (r : Request) : M Response :=
  match url_ParseRequestURI env (getURL r) with
  | Some err => throw (BadRequest (Some err))
  | None =>
      b ← deref bf;
      bindJar (bf_jar b);;
      req ← lift (newRequest r);
      reply ← perform (λ tr, client_Do env tr req) (EvHttpDo req);
      match reply with
      | inl err => throw (BadRequest (Some err))
      | inr resp =>
          if decide (StatusCode resp ≠ 200%Z)
          then throw (statusError (StatusCode resp) (URL r))
          else mret resp
      end
  end.

(** [func (bf *BaseFetcher) Fetch(request Request)]: the body stream of
    the response, or the error. *)
Definition BaseFetcher_Fetch (bf : option BaseFetcher) (request : Request) : M string :=
  resp ← response bf request;
  mret (Body resp).

End fetch.

(** ** A sample environment

    It agrees with net/url and net/http on the inputs used below:
    the URLs under http://example.com are accepted, "not a url" is not a
    request URI, and "://proxy" has no scheme. *)

Definition sample_response (req : HttpRequest) : Response :=
  {| StatusCode := 200%Z; Body := "<html>ok</html>" |}.

Definition sample_env : Env := {|
  viper_GetString := λ key, if decide (key = "CHROME") then "http://127.0.0.1:9222" else "";
  url_ParseRequestURI := λ u,
    if String.prefix "http://example.com" u then None
    else Some (LibErr "invalid URI for request");
  url_Parse := λ u,
    if String.prefix "http://" u then None
    else Some (LibErr "missing protocol scheme");
  http_NewRequest_err := λ method u,
    if String.prefix "http://example.com" u then None
    else Some (LibErr "missing protocol scheme");
  client_Do := λ tr req, inr (sample_response req);
  devt_Get := λ tr endpoint, inr "ws://127.0.0.1:9222/devtools/page/1";
  rpcc_Dial := λ tr wsurl, None;
  cdp_call := λ tr c op, None;
  cdp_GetDocument := λ tr c, inr 1%Z;
  cdp_GetOuterHTML := λ tr c node, inr "<html>rendered</html>";
  cdp_CompileScript := λ tr c expression, inr (Some "1");
  ioutil_ReadFile := λ tr path, inr "window.scrollTo(0, document.body.scrollHeight)";
  schedule := λ tr n, 0
|}.

Definition plain_fetcher : BaseFetcher := {| bf_client := {| Proxy := None |}; bf_jar := None |}.

Definition login_request : Request :=
  {| Type_ := ""; URL := "http://example.com/login"; Method := "";
     FormData := "user=a&pass=b"; UserToken := ""; InfiniteScroll := false |}.

Example login_run :
  run (BaseFetcher_Fetch sample_env (Some plain_fetcher) login_request)
  = (Ok "<html>ok</html>",
     [EvHttpDo
        {| reqMethod := "POST"; reqURL := "http://example.com/login";
           reqHeader := {[ "Content-Type" := ["application/x-www-form-urlencoded"];
                           "Content-Length" := ["13"] ]};
           reqBody := Some "pass=b&user=a" |}
        (inr {| StatusCode := 200%Z; Body := "<html>ok</html>" |})]).
Proof. vm_compute. reflexivity. Qed.

(** ** The Direct strategy *)

Ltac unfold_M :=
  cbv beta delta [run mbind M_bind mret M_ret throw raise lift perform emit
                  defer returnErr deref bindJar] in *.

Definition jarTrace (jar : option Jar) : list Event :=
  match jar with
  | Some j => [EvBindJar j]
  | None => []
  end.

(** What the reply of the transport becomes. *)
Definition replyOutcome (r : Request) (reply : liberr + Response) : outcome Response :=
  match reply with
  | inl err => Err (BadRequest (Some err))
  | inr resp =>
      if decide (StatusCode resp ≠ 200%Z)
      then Err (statusError (StatusCode resp) (URL r))
      else Ok resp
  end.

Definition bodyOf (o : outcome Response) : outcome string :=
  match o with
  | Ok resp => Ok (Body resp)
  | Err e => Err e
  | Panic p => Panic p
  end.

(** [Fetch] of the Direct strategy, run from the empty trace, case by case. *)
Lemma BaseFetcher_Fetch_run env bf r :
  run (BaseFetcher_Fetch env bf r) =
  match url_ParseRequestURI env (getURL r) with
  | Some err => (Err (BadRequest (Some err)), [])
  | None =>
      match bf with
      | None => (Panic NilDereference, [])
      | Some b =>
          match newRequest env r with
          | Ok req =>
              let reply := client_Do env (jarTrace (bf_jar b)) req in
              (bodyOf (replyOutcome r reply),
               jarTrace (bf_jar b) ++ [EvHttpDo req reply])
          | Err e => (Err e, jarTrace (bf_jar b))
          | Panic p => (Panic p, jarTrace (bf_jar b))
          end
      end
  end.
Proof.
  unfold BaseFetcher_Fetch, response. unfold_M.
  destruct (url_ParseRequestURI env (getURL r)); [done |].
  destruct bf as [b|]; [| done].
  destruct (bf_jar b) as [j|]; simpl;
    (destruct (newRequest env r) as [req|e|p]; simpl; [| done | done]);
    unfold replyOutcome;
    (destruct (client_Do env _ req) as [err|resp]; simpl; [done |]);
    by destruct (decide (StatusCode resp ≠ 200%Z)).
Qed.

(** The only call to the outside that [Fetch] makes is the one request. *)
Lemma BaseFetcher_Fetch_request env bf r out tr req reply :
  run (BaseFetcher_Fetch env bf r) = (out, tr) →
  EvHttpDo req reply ∈ tr →
  newRequest env r = Ok req ∧ out = bodyOf (replyOutcome r reply).
Proof.
  rewrite BaseFetcher_Fetch_run. intros Hrun Hin.
  destruct (url_ParseRequestURI env (getURL r)).
  { injection Hrun as <- <-. by apply elem_of_nil in Hin. }
  destruct bf as [b|].
  2: { injection Hrun as <- <-. by apply elem_of_nil in Hin. }
  assert (EvHttpDo req reply ∉ jarTrace (bf_jar b)) as Hjar.
  { destruct (bf_jar b) as [j|]; simpl.
    - intros H. apply list_elem_of_singleton in H. discriminate.
    - apply not_elem_of_nil. }
  destruct (newRequest env r) as [req'|e|p]; cbv zeta in Hrun;
    injection Hrun as <- <-; try done.
  apply elem_of_app in Hin as [Hin|Hin]; [done |].
  apply list_elem_of_singleton in Hin. by injection Hin as -> ->.
Qed.

(** The sample environment with another transport. *)
Definition with_client_Do (env : Env)
    (do : list Event → HttpRequest → liberr + Response) : Env :=
  {| viper_GetString := viper_GetString env;
     url_ParseRequestURI := url_ParseRequestURI env;
     url_Parse := url_Parse env;
     http_NewRequest_err := http_NewRequest_err env;
     client_Do := do;
     devt_Get := devt_Get env;
     rpcc_Dial := rpcc_Dial env;
     cdp_call := cdp_call env;
     cdp_GetDocument := cdp_GetDocument env;
     cdp_GetOuterHTML := cdp_GetOuterHTML env;
     cdp_CompileScript := cdp_CompileScript env;
     ioutil_ReadFile := ioutil_ReadFile env;
     schedule := schedule env |}.

Definition not_found_env : Env :=
  with_client_Do sample_env (λ tr req, inr {| StatusCode := 404%Z; Body := "gone" |}).

Definition page_request : Request :=
  {| Type_ := ""; URL := "http://example.com/a/"; Method := "GET";
     FormData := ""; UserToken := ""; InfiniteScroll := false |}.

(** The status codes of the table of the specification. *)
Definition tableCodes : list Z := [200; 400; 401; 403; 404; 407; 500; 502; 504]%Z.

(** C3: once the transport has answered with a response, the outcome of
    [Fetch] is fixed by the status code alone: 200 gives the body as it
    is, the eight codes of the table give their error, every other code
    gives the unknown error. *)
Theorem BaseFetcher_status_mapping env bf r out tr req resp :
  run (BaseFetcher_Fetch env bf r) = (out, tr) →
  EvHttpDo req (inr resp) ∈ tr →
  (StatusCode resp = 200%Z → out = Ok (Body resp))
  ∧ (StatusCode resp = 400%Z → out = Err (BadRequest None))
  ∧ (StatusCode resp = 401%Z → out = Err Unauthorized)
  ∧ (StatusCode resp = 403%Z → out = Err (Forbidden (URL r)))
  ∧ (StatusCode resp = 404%Z → out = Err (NotFound (URL r)))
  ∧ (StatusCode resp = 407%Z → out = Err ProxyAuthenticationRequired)
  ∧ (StatusCode resp = 500%Z → out = Err InternalServerError)
  ∧ (StatusCode resp = 502%Z → out = Err BadGateway)
  ∧ (StatusCode resp = 504%Z → out = Err GatewayTimeout)
  ∧ (StatusCode resp ∉ tableCodes → out = Err (ErrsError "Unknown Error")).
Proof.
  intros Hrun Hin.
  destruct (BaseFetcher_Fetch_request _ _ _ _ _ _ _ Hrun Hin) as [_ ->].
  unfold replyOutcome, statusError.
  repeat split; intros Hc.
  1-9: by rewrite Hc.
  destruct (decide (StatusCode resp ≠ 200%Z)) as [_|Hn].
  - repeat (destruct (decide _) as [E|_];
            [exfalso; apply Hc; rewrite E; unfold tableCodes;
             repeat ((by left) || right) |]).
    done.
  - exfalso. apply Hc. apply dec_stable in Hn. rewrite Hn. left.
Qed.

Lemma BaseFetcher_status_mapping_witness :
  (run (BaseFetcher_Fetch not_found_env (Some plain_fetcher) page_request)).1
  = Err (NotFound "http://example.com/a/").
Proof.
  refine (proj1 (proj2 (proj2 (proj2 (proj2
    (BaseFetcher_status_mapping not_found_env (Some plain_fetcher) page_request
       _ (run (BaseFetcher_Fetch not_found_env (Some plain_fetcher) page_request)).2
       _ {| StatusCode := 404%Z; Body := "gone" |} _ _))))) _).
  - vm_compute. reflexivity.
  - vm_compute. left.
  - reflexivity.
Defined.

(** The request built for a Request with form data. *)
Lemma newRequest_form env r req :
  FormData r ≠ "" →
  newRequest env r = Ok req →
  ∃ formData,
    parseFormData (FormData r) = Ok formData
    ∧ req = {| reqMethod := "POST"; reqURL := URL r;
               reqHeader :=
                 url.Add (url.Add ∅ "Content-Type" "application/x-www-form-urlencoded")
                   "Content-Length" (strconv.Itoa (len (url.Encode formData)));
               reqBody := Some (url.Encode formData) |}.
Proof.
  intros Hfd. unfold newRequest, http_NewRequest.
  destruct (decide (FormData r = "")) as [|_]; [done |].
  destruct (parseFormData (FormData r)) as [formData| |]; [| done | done].
  destruct (http_NewRequest_err env "POST" (URL r)); [done |].
  intros [= <-]. by exists formData.
Qed.

(** C1 (as stated, refuted): for the form data "user=a&pass=b" the body of
    the POST is "pass=b&user=a", not the form-data string of the Request. *)
Lemma login_body_differs :
  ∃ req reply,
    EvHttpDo req reply ∈ (run (BaseFetcher_Fetch sample_env (Some plain_fetcher) login_request)).2
    ∧ reqBody req = Some "pass=b&user=a"
    ∧ reqBody req ≠ Some (FormData login_request).
Proof.
  eexists _, _. split; [vm_compute; left |]. split; [reflexivity |].
  vm_compute. discriminate.
Qed.

(** C1 (amended): with form data, every request [Fetch] sends is a POST,
    whatever the method of the Request; its body is the encoding
    ([url.Values.Encode]: keys sorted, keys and values escaped) of the
    parsed pairs, Content-Type is application/x-www-form-urlencoded and
    Content-Length is the byte length of that body; and the request is
    sent whenever the URL validates, the fetcher is not nil, every pair has
    an equals sign and [http.NewRequest] accepts the URL. *)
Theorem BaseFetcher_form_post env bf r out tr :
  FormData r ≠ "" →
  run (BaseFetcher_Fetch env bf r) = (out, tr) →
  (∀ req reply, EvHttpDo req reply ∈ tr →
     ∃ formData,
       parseFormData (FormData r) = Ok formData
       ∧ reqMethod req = "POST"
       ∧ reqHeader req !! "Content-Type" = Some ["application/x-www-form-urlencoded"]
       ∧ reqHeader req !! "Content-Length"
         = Some [strconv.Itoa (len (url.Encode formData))]
       ∧ reqBody req = Some (url.Encode formData))
  ∧ (url_ParseRequestURI env (getURL r) = None →
     bf ≠ None →
     Forall hasEq (strings.Split (FormData r) "&") →
     http_NewRequest_err env "POST" (URL r) = None →
     ∃ req reply, EvHttpDo req reply ∈ tr).
Proof.
  intros Hfd Hrun. split.
  - intros req reply Hin.
    destruct (BaseFetcher_Fetch_request _ _ _ _ _ _ _ Hrun Hin) as [Hreq _].
    destruct (newRequest_form _ _ _ Hfd Hreq) as (formData & Hparse & ->).
    exists formData. by repeat split.
  - intros Hurl Hbf Hpairs Hnew. rewrite BaseFetcher_Fetch_run, Hurl in Hrun.
    destruct bf as [b|]; [| done].
    apply parseFormData_total in Hpairs as [v Hv].
    unfold newRequest, http_NewRequest in Hrun.
    destruct (decide (FormData r = "")) as [|_]; [done |].
    rewrite Hv, Hnew in Hrun. cbv zeta in Hrun. injection Hrun as _ <-.
    eexists _, _. apply elem_of_app. right. left.
Qed.

Lemma BaseFetcher_form_post_witness :
  ∃ req reply,
    EvHttpDo req reply ∈ (run (BaseFetcher_Fetch sample_env (Some plain_fetcher) login_request)).2.
Proof.
  refine (proj2 (BaseFetcher_form_post sample_env (Some plain_fetcher) login_request
            (run (BaseFetcher_Fetch sample_env (Some plain_fetcher) login_request)).1
            _ _ _) _ _ _ _).
  - discriminate.
  - vm_compute. reflexivity.
  - reflexivity.
  - discriminate.
  - vm_compute. repeat constructor.
  - reflexivity.
Defined.

(** ** The Browser strategy *)

(** The header object the interceptor sends, as [fmt.Sprintf] writes it:
    the two header names and the content type between double quotes. *)
Definition quoted (s : string) : string :=
  String (ascii_of_nat 34) s +:+ String (ascii_of_nat 34) "".

Definition interceptHeaders (formData : string) : string :=
  "{" +:+ quoted "Content-Type" +:+ ":" +:+ quoted "application/x-www-form-urlencoded"
  +:+ "," +:+ quoted "Content-Length" +:+ ":" +:+ strconv.Itoa (len formData) +:+ "}".

Section chrome.
Context (env : Env).

(** A protocol call that returns only an error. *)
Definition call (c : Ctx) (op : CdpOp) : M (option liberr) :=
  perform (λ tr, cdp_call env tr c op) (EvCdp c op).

(** [type runBatchFunc func() error] *)
Definition runBatchFunc := M (option liberr).

(** [eg.Wait()] of a zero [errgroup.Group]: every function started with
    [eg.Go] runs to its end, in the order the scheduler lets them return;
    the result is the first error that was returned.  The group has no
    context, so an error stops nothing. *)
Fixpoint eg_Wait (fuel : nat) (pending : list runBatchFunc) (first : option liberr)
  : M (option liberr) :=
  match fuel with
  | O => mret first
  | S n =>
      λ tr,
        match pending !! (schedule env tr (length pending) mod length pending) with
        | None => (Ok first, tr)
        | Some f =>
            (err ← f;
             eg_Wait n
               (delete (schedule env tr (length pending) mod length pending) pending)
               (match first with Some e => Some e | None => err end)) tr
        end
  end.

(** [func runBatch(fn ...runBatchFunc) error] *)
Definition runBatch (fn : list runBatchFunc) : M (option liberr) :=
  eg_Wait (length fn) fn None.

(** [func (f *ChromeFetcher) navigate(ctx, pageClient, method, url,
    formData, timeout) error] *)
Definition navigate (method url formData : string) (timeout : Z)
  : M (option liberr) :=
  let ctx := CtxTimeout timeout in
  defer [EvCancel ctx]
    (err ← call ctx (Enable Page);
     match err with
     | Some e => mret (Some e)
     | None =>
         err ← call ctx DOMContentEventFired;
         match err with
         | Some e => mret (Some e)
         | None =>
             defer [EvStreamClose]
               (if decide (method = "GET") then
                  err ← call ctx (Navigate url);
                  match err with
                  | Some e => mret (Some e)
                  | None => call ctx Recv
                  end
                else
                  emit (EvGo (Interceptor "POST" formData (interceptHeaders formData)));;
                  err ← call ctx (Navigate url);
                  match err with
                  | Some e => mret (Some e)
                  | None => call ctx Recv
                  end)
         end
     end).

(** [func (f ChromeFetcher) runJSFromFile(ctx, path) error]: reading the
    file and compiling the script panic on failure. *)
Definition runJSFromFile (ctx : Ctx) (path : string) : M (option liberr) :=
  exp ← perform (λ tr, ioutil_ReadFile env tr path) (EvReadFile path);
  match exp with
  | inl err => raise (PanicErr err)
  | inr exp =>
      compileReply ← perform (λ tr, cdp_CompileScript env tr CtxBackground exp)
                       (EvCompileScript CtxBackground exp);
      match compileReply with
      | inl err => raise (PanicErr err)
      | inr scriptID =>
          id ← deref scriptID;
          call ctx (RunScript id true)
      end
  end.

(** The navigation statement of [Fetch]: the error of the plain
    navigation is returned, the one of the form submission is dropped. *)
Definition Fetch_navigate (request : Request) (domLoadTimeout : Z) : M unit :=
  if decide (FormData request = "") then
    err ← navigate "GET" (getURL request) "" domLoadTimeout;
    returnErr err
  else
    formData ← lift (parseFormData (FormData request));
    _ ← navigate "POST" (getURL request) (url.Encode formData) domLoadTimeout;
    mret tt.

(** [func (f *ChromeFetcher) Fetch(request Request)]: the rendered
    markup, or the error. *)
Definition ChromeFetcher_Fetch (f : option ChromeFetcher) (request : Request)
  : M string :=
  match url_ParseRequestURI env (strings.TrimSpace (getURL request)) with
  | Some err => throw (BadRequest (Some err))
  | None =>
      cf ← deref f;
      bindJar (cf_jar cf);;
      defer [EvCancel CtxFetch]
        (pt ← perform (λ tr, devt_Get env tr (viper_GetString env "CHROME"))
                (EvDevtGet (viper_GetString env "CHROME"));
         match pt with
         | inl err => throw (Lib err)
         | inr wsurl =>
             err ← perform (λ tr, rpcc_Dial env tr wsurl) (EvDial wsurl);
             returnErr err;;
             defer [EvConnClose]
               (emit (EvGo AbortWatcher);;
                err ← runBatch [call CtxFetch (Enable DOM);
                                call CtxFetch (Enable Network);
                                call CtxFetch (Enable Page);
                                call CtxFetch (Enable Runtime)];
                returnErr err;;
                Fetch_navigate request (5 * Second);;
                (if InfiniteScroll request then
                   emit (EvSleep (3 * Second));;
                   err ← runJSFromFile CtxFetch "./chrome/scroll2bottom.js";
                   returnErr err
                 else mret tt);;
                doc ← perform (λ tr, cdp_GetDocument env tr CtxFetch)
                        (EvGetDocument CtxFetch);
                match doc with
                | inl err => throw (Lib err)
                | inr root =>
                    result ← perform (λ tr, cdp_GetOuterHTML env tr CtxFetch root)
                               (EvGetOuterHTML CtxFetch root);
                    match result with
                    | inl err => throw (Lib err)
                    | inr outerHTML => mret outerHTML
                    end
                end)
         end)
  end.

End chrome.

Definition chrome_fetcher : ChromeFetcher := {| cf_client := {| Proxy := None |}; cf_jar := None |}.

Example chrome_page_run :
  run (ChromeFetcher_Fetch sample_env (Some chrome_fetcher) page_request)
  = (Ok "<html>rendered</html>",
     [EvDevtGet "http://127.0.0.1:9222" (inr "ws://127.0.0.1:9222/devtools/page/1");
      EvDial "ws://127.0.0.1:9222/devtools/page/1" None;
      EvGo AbortWatcher;
      EvCdp CtxFetch (Enable DOM) None;
      EvCdp CtxFetch (Enable Network) None;
      EvCdp CtxFetch (Enable Page) None;
      EvCdp CtxFetch (Enable Runtime) None;
      EvCdp (CtxTimeout 5000000000%Z) (Enable Page) None;
      EvCdp (CtxTimeout 5000000000%Z) DOMContentEventFired None;
      EvCdp (CtxTimeout 5000000000%Z) (Navigate "http://example.com/a") None;
      EvCdp (CtxTimeout 5000000000%Z) Recv None;
      EvStreamClose;
      EvCancel (CtxTimeout 5000000000%Z);
      EvGetDocument CtxFetch (inr 1%Z);
      EvGetOuterHTML CtxFetch 1%Z (inr "<html>rendered</html>");
      EvConnClose;
      EvCancel CtxFetch]).
Proof. vm_compute. reflexivity. Qed.

(** ** Runs of the two strategies on sample requests *)

(** The sample environment with other replies of the protocol. *)
Definition with_cdp_call (env : Env)
    (reply : list Event → Ctx → CdpOp → option liberr) : Env :=
  {| viper_GetString := viper_GetString env;
     url_ParseRequestURI := url_ParseRequestURI env;
     url_Parse := url_Parse env;
     http_NewRequest_err := http_NewRequest_err env;
     client_Do := client_Do env;
     devt_Get := devt_Get env;
     rpcc_Dial := rpcc_Dial env;
     cdp_call := reply;
     cdp_GetDocument := cdp_GetDocument env;
     cdp_GetOuterHTML := cdp_GetOuterHTML env;
     cdp_CompileScript := cdp_CompileScript env;
     ioutil_ReadFile := ioutil_ReadFile env;
     schedule := schedule env |}.

(** The browser refuses the navigation. *)
Definition nav_error_env : Env :=
  with_cdp_call sample_env
    (λ tr c op, match op with
                | Navigate _ => Some (LibErr "cdp.Page: Navigate: rpc error")
                | _ => None
                end).

(** The DOM-content-loaded event does not arrive before the deadline. *)
Definition timeout_env : Env :=
  with_cdp_call sample_env
    (λ tr c op, match op with
                | Recv => Some DeadlineExceeded
                | _ => None
                end).

(** Enabling the DOM domain fails, the other three succeed. *)
Definition dom_error_env : Env :=
  with_cdp_call sample_env
    (λ tr c op, match op with
                | Enable DOM => Some (LibErr "cdp.DOM: Enable: rpc error")
                | _ => None
                end).

Definition ws : string := "ws://127.0.0.1:9222/devtools/page/1".
Definition t5 : Ctx := CtxTimeout (5 * Second).

(** C2 (the code at the failing input): the Request has form data and the
    browser refuses the navigation; [Fetch] drops that error, goes on to
    read the document and returns its markup. *)
Theorem form_navigation_error_dropped :
  run (ChromeFetcher_Fetch nav_error_env (Some chrome_fetcher) login_request)
  = (Ok "<html>rendered</html>",
     [EvDevtGet "http://127.0.0.1:9222" (inr ws);
      EvDial ws None;
      EvGo AbortWatcher;
      EvCdp CtxFetch (Enable DOM) None;
      EvCdp CtxFetch (Enable Network) None;
      EvCdp CtxFetch (Enable Page) None;
      EvCdp CtxFetch (Enable Runtime) None;
      EvCdp t5 (Enable Page) None;
      EvCdp t5 DOMContentEventFired None;
      EvGo (Interceptor "POST" "pass=b&user=a" (interceptHeaders "pass=b&user=a"));
      EvCdp t5 (Navigate "http://example.com/login")
        (Some (LibErr "cdp.Page: Navigate: rpc error"));
      EvStreamClose;
      EvCancel t5;
      EvGetDocument CtxFetch (inr 1%Z);
      EvGetOuterHTML CtxFetch 1%Z (inr "<html>rendered</html>");
      EvConnClose;
      EvCancel CtxFetch]).
Proof. vm_compute. reflexivity. Qed.

(** C9 (the code at the failing input): the deadline of five seconds passes
    without the event.  Without form data [Fetch] fails with the deadline
    error and closes the connection; with form data it drops the error and
    returns the markup of whatever document there is. *)
Theorem form_navigation_timeout_dropped :
  run (ChromeFetcher_Fetch timeout_env (Some chrome_fetcher) page_request)
  = (Err (Lib DeadlineExceeded),
     [EvDevtGet "http://127.0.0.1:9222" (inr ws);
      EvDial ws None;
      EvGo AbortWatcher;
      EvCdp CtxFetch (Enable DOM) None;
      EvCdp CtxFetch (Enable Network) None;
      EvCdp CtxFetch (Enable Page) None;
      EvCdp CtxFetch (Enable Runtime) None;
      EvCdp t5 (Enable Page) None;
      EvCdp t5 DOMContentEventFired None;
      EvCdp t5 (Navigate "http://example.com/a") None;
      EvCdp t5 Recv (Some DeadlineExceeded);
      EvStreamClose;
      EvCancel t5;
      EvConnClose;
      EvCancel CtxFetch])
  ∧ run (ChromeFetcher_Fetch timeout_env (Some chrome_fetcher) login_request)
  = (Ok "<html>rendered</html>",
     [EvDevtGet "http://127.0.0.1:9222" (inr ws);
      EvDial ws None;
      EvGo AbortWatcher;
      EvCdp CtxFetch (Enable DOM) None;
      EvCdp CtxFetch (Enable Network) None;
      EvCdp CtxFetch (Enable Page) None;
      EvCdp CtxFetch (Enable Runtime) None;
      EvCdp t5 (Enable Page) None;
      EvCdp t5 DOMContentEventFired None;
      EvGo (Interceptor "POST" "pass=b&user=a" (interceptHeaders "pass=b&user=a"));
      EvCdp t5 (Navigate "http://example.com/login") None;
      EvCdp t5 Recv (Some DeadlineExceeded);
      EvStreamClose;
      EvCancel t5;
      EvGetDocument CtxFetch (inr 1%Z);
      EvGetOuterHTML CtxFetch 1%Z (inr "<html>rendered</html>");
      EvConnClose;
      EvCancel CtxFetch]).
Proof. split; vm_compute; reflexivity. Qed.

(** C6 (the code at the failing input): the URL of the Request ends with a
    slash.  The URL that is validated and the one the browser navigates to
    is the normalized one; the request of the Direct strategy is built
    from the raw field. *)
Theorem direct_request_uses_raw_URL :
  getURL page_request = "http://example.com/a"
  ∧ run (BaseFetcher_Fetch sample_env (Some plain_fetcher) page_request)
    = (Ok "<html>ok</html>",
       [EvHttpDo {| reqMethod := "GET"; reqURL := "http://example.com/a/";
                    reqHeader := ∅; reqBody := None |}
          (inr {| StatusCode := 200%Z; Body := "<html>ok</html>" |})])
  ∧ EvCdp t5 (Navigate "http://example.com/a") None
    ∈ (run (ChromeFetcher_Fetch sample_env (Some chrome_fetcher) page_request)).2.
Proof.
  split; [by vm_compute |]. split; [by vm_compute |].
  vm_compute. repeat ((by left) || right).
Qed.

(** C8 (as stated, refuted): enabling the DOM domain fails first; the
    other three activations are still carried out after that failure,
    nothing cancels them. *)
Lemma activation_failure_cancels_nothing :
  run (ChromeFetcher_Fetch dom_error_env (Some chrome_fetcher) page_request)
  = (Err (Lib (LibErr "cdp.DOM: Enable: rpc error")),
     [EvDevtGet "http://127.0.0.1:9222" (inr ws);
      EvDial ws None;
      EvGo AbortWatcher;
      EvCdp CtxFetch (Enable DOM) (Some (LibErr "cdp.DOM: Enable: rpc error"));
      EvCdp CtxFetch (Enable Network) None;
      EvCdp CtxFetch (Enable Page) None;
      EvCdp CtxFetch (Enable Runtime) None;
      EvConnClose;
      EvCancel CtxFetch])
  ∧ ∃ before after,
      (run (ChromeFetcher_Fetch dom_error_env (Some chrome_fetcher) page_request)).2
      = before
        ++ EvCdp CtxFetch (Enable DOM) (Some (LibErr "cdp.DOM: Enable: rpc error"))
        :: after
      ∧ EvCdp CtxFetch (Enable Network) None ∈ after
      ∧ EvCdp CtxFetch (Enable Page) None ∈ after
      ∧ EvCdp CtxFetch (Enable Runtime) None ∈ after.
Proof.
  split; [vm_compute; reflexivity |].
  exists [EvDevtGet "http://127.0.0.1:9222" (inr ws); EvDial ws None; EvGo AbortWatcher].
  eexists. split; [vm_compute; reflexivity |].
  repeat split; repeat ((by left) || right).
Qed.

(** ** Reasoning about runs: postconditions on outcome and new events *)

(** [post m Q]: from every trace, [m] only appends events, and [Q] holds
    of its outcome and of the events it appended. *)
Definition post {A} (m : M A) (Q : outcome A → list Event → Prop) : Prop :=
  ∀ tr, ∃ evs, (m tr).2 = tr ++ evs ∧ Q (m tr).1 evs.

Lemma post_run {A} (m : M A) Q out tr : post m Q → run m = (out, tr) → Q out tr.
Proof.
  intros H Hrun. destruct (H []) as (evs & E & HQ). unfold run in Hrun.
  rewrite Hrun in E, HQ. simpl in *. by subst.
Qed.

Lemma post_mono {A} (m : M A) (Q Q' : outcome A → list Event → Prop) :
  post m Q → (∀ o evs, Q o evs → Q' o evs) → post m Q'.
Proof. intros H HQ tr. destruct (H tr) as (evs & E & ?). eauto. Qed.

Lemma post_ret {A} (a : A) (Q : outcome A → list Event → Prop) :
  Q (Ok a) [] → post (mret a) Q.
Proof. intros H tr. exists []. by rewrite app_nil_r. Qed.

Lemma post_throw {A} e (Q : outcome A → list Event → Prop) :
  Q (Err e) [] → post (throw e) Q.
Proof. intros H tr. exists []. by rewrite app_nil_r. Qed.

Lemma post_raise {A} p (Q : outcome A → list Event → Prop) :
  Q (Panic p) [] → post (raise p) Q.
Proof. intros H tr. exists []. by rewrite app_nil_r. Qed.

Lemma post_lift {A} (o : outcome A) (Q : outcome A → list Event → Prop) :
  Q o [] → post (lift o) Q.
Proof. intros H tr. exists []. by rewrite app_nil_r. Qed.

Lemma post_perform {R} (ask : list Event → R) ev (Q : outcome R → list Event → Prop) :
  (∀ r, Q (Ok r) [ev r]) → post (perform ask ev) Q.
Proof. intros H tr. exists [ev (ask tr)]. split; [done | apply H]. Qed.

Lemma post_emit ev (Q : outcome unit → list Event → Prop) :
  Q (Ok tt) [ev] → post (emit ev) Q.
Proof. intros H tr. by exists [ev]. Qed.

Lemma post_bind {A B} (m : M A) (k : A → M B) (Q : outcome B → list Event → Prop) :
  post m (λ o evs1,
            match o with
            | Ok a => post (k a) (λ o2 evs2, Q o2 (evs1 ++ evs2))
            | Err e => Q (Err e) evs1
            | Panic p => Q (Panic p) evs1
            end) →
  post (m ≫= k) Q.
Proof.
  intros H tr. destruct (H tr) as (evs1 & E1 & H1).
  unfold mbind, M_bind. destruct (m tr) as [[a|e|p] tr1]; simpl in *; subst tr1.
  - destruct (H1 (tr ++ evs1)) as (evs2 & E2 & H2).
    exists (evs1 ++ evs2). by rewrite E2, app_assoc.
  - by exists evs1.
  - by exists evs1.
Qed.

Lemma post_defer {A} d (body : M A) (Q : outcome A → list Event → Prop) :
  post body (λ o evs, Q o (evs ++ d)) → post (defer d body) Q.
Proof.
  intros H tr. destruct (H tr) as (evs & E & HQ). unfold defer.
  destruct (body tr) as [o tr1]; simpl in *; subst tr1.
  exists (evs ++ d). by rewrite app_assoc.
Qed.

(** ** The activation batch *)

(** The events of a batch of activations: the domains in the order the
    calls returned, each with its reply. *)
Definition enableEvents (l : list (Domain * option liberr)) : list Event :=
  (λ x, EvCdp CtxFetch (Enable x.1) x.2) <$> l.

Fixpoint firstErr (l : list (option liberr)) : option liberr :=
  match l with
  | [] => None
  | Some e :: _ => Some e
  | None :: r => firstErr r
  end.

Definition orElse (first err : option liberr) : option liberr :=
  match first with Some e => Some e | None => err end.

Lemma eg_Wait_enable env n ds first tr :
  length ds ≤ n →
  ∃ l, l.*1 ≡ₚ ds
       ∧ eg_Wait env n ((λ d, call env CtxFetch (Enable d)) <$> ds) first tr
         = (Ok (orElse first (firstErr l.*2)), tr ++ enableEvents l).
Proof.
  revert ds first tr. induction n as [|n IH]; intros ds first tr Hn.
  - destruct ds; [| simpl in Hn; lia]. exists []. simpl.
    split; [done |]. rewrite app_nil_r. by destruct first.
  - simpl. rewrite length_fmap.
    destruct (decide (ds = [])) as [->|Hne].
    { exists []. simpl. split; [done |]. rewrite app_nil_r. by destruct first. }
    set (i := schedule env tr (length ds) mod length ds).
    assert (i < length ds) as Hi.
    { apply Nat.mod_upper_bound. destruct ds; [done | simpl; lia]. }
    destruct (lookup_lt_is_Some_2 ds i Hi) as [d Hd].
    rewrite list_lookup_fmap, Hd. simpl.
    unfold mbind, M_bind, call at 1, perform.
    set (rep := cdp_call env tr CtxFetch (Enable d)).
    rewrite <- list_fmap_delete.
    destruct (IH (delete i ds) (orElse first rep)
                (tr ++ [EvCdp CtxFetch (Enable d) rep])) as (l & Hl & E).
    { rewrite length_delete; [lia | by eexists]. }
    exists ((d, rep) :: l). split.
    + simpl. rewrite Hl. symmetry. by apply delete_Permutation.
    + refine (eq_trans E _). f_equal.
      * f_equal. destruct first; [done |]. simpl. by destruct rep.
      * by rewrite <- app_assoc.
Qed.

(** [runBatch] on the four activations: all four calls are made, in some
    order, and the result is the first error among their replies. *)
Lemma post_runBatch env (Q : outcome (option liberr) → list Event → Prop) :
  (∀ l, l.*1 ≡ₚ [DOM; Network; Page; Runtime] →
        Q (Ok (firstErr l.*2)) (enableEvents l)) →
  post (runBatch env [call env CtxFetch (Enable DOM);
                      call env CtxFetch (Enable Network);
                      call env CtxFetch (Enable Page);
                      call env CtxFetch (Enable Runtime)]) Q.
Proof.
  intros H tr. unfold runBatch.
  destruct (eg_Wait_enable env 4 [DOM; Network; Page; Runtime] None tr)
    as (l & Hl & E); [simpl; lia |].
  exists (enableEvents l). simpl in E |- *. rewrite E. simpl. auto.
Qed.

(** ** Stepping through a run *)

Ltac post_step :=
  lazymatch goal with
  | |- post (mbind _ _) _ => apply post_bind
  | |- post (mret _) _ => apply post_ret
  | |- post (throw _) _ => apply post_throw
  | |- post (raise _) _ => apply post_raise
  | |- post (lift _) _ => apply post_lift
  | |- post (perform _ _) _ => apply post_perform; intros ?
  | |- post (call _ _ _) _ => apply post_perform; intros ?
  | |- post (emit _) _ => apply post_emit
  | |- post (defer _ _) _ => apply post_defer
  | |- post (returnErr ?e) _ => destruct e; unfold returnErr
  | |- post (deref ?p) _ => destruct p; unfold deref
  | |- post (bindJar ?j) _ => destruct j; unfold bindJar
  | |- post (runBatch _ _) _ => apply post_runBatch; intros ? ?
  | |- post (match ?x with _ => _ end) _ => destruct x eqn:?
  end; cbv beta iota.

Lemma Forall_enableEvents (P : Event → Prop) l :
  (∀ d rep, P (EvCdp CtxFetch (Enable d) rep)) → Forall P (enableEvents l).
Proof. intros H. unfold enableEvents. apply Forall_fmap, Forall_true. intros [d rep]. apply H. Qed.

Definition withMethod (req : Request) (m : string) : Request :=
  {| Type_ := Type_ req; URL := URL req; Method := m;
     FormData := FormData req; UserToken := UserToken req;
     InfiniteScroll := InfiniteScroll req |}.

(** An event of a plain navigation to the normalized URL of [r]: no
    interceptor is started, and a navigation goes to that URL under the
    deadline of five seconds. *)
Definition plainNav (r : Request) (ev : Event) : Prop :=
  match ev with
  | EvGo (Interceptor _ _ _) => False
  | EvCdp c (Navigate u) _ => c = CtxTimeout (5 * Second) ∧ u = getURL r
  | _ => True
  end.

Ltac solve_Forall :=
  repeat first
    [ apply Forall_nil_2
    | apply Forall_cons_2; [simpl; done |]
    | apply Forall_app_2
    | apply Forall_enableEvents; intros; simpl; done ].

Ltac solve_elem :=
  rewrite ?elem_of_app, ?elem_of_cons; intuition (auto; congruence).

Lemma post_Fetch_plain env f r :
  FormData r = "" →
  post (ChromeFetcher_Fetch env f r)
    (λ o evs, Forall (plainNav r) evs
              ∧ (∀ html, o = Ok html →
                   EvCdp (CtxTimeout (5 * Second)) (Navigate (getURL r)) None ∈ evs
                   ∧ EvCdp (CtxTimeout (5 * Second)) Recv None ∈ evs)).
Proof.
  intros Hfd. unfold ChromeFetcher_Fetch, Fetch_navigate, navigate, runJSFromFile.
  destruct (decide (FormData r = "")) as [_|]; [| done].
  destruct (decide ("GET" = "GET")) as [_|]; [| done].
  repeat post_step; (split; [solve_Forall | intros html [=]; try solve_elem]).
Qed.

Definition post_request : Request :=
  {| Type_ := ""; URL := "http://example.com/a/"; Method := "POST";
     FormData := ""; UserToken := ""; InfiniteScroll := false |}.

(** C4 (as stated, refuted): for a Request with the method POST and no
    form data, the navigation statement of [Fetch] does not do what
    [navigate] does with the method of the Request (which starts the
    interceptor that turns the request into a POST): it navigates as for a
    GET, and the whole run is the one of the same Request with method GET. *)
Lemma plain_navigation_ignores_method :
  run (Fetch_navigate sample_env post_request (5 * Second))
  ≠ run (err ← navigate sample_env (Method post_request) (getURL post_request) ""
                 (5 * Second);
         returnErr err)
  ∧ run (ChromeFetcher_Fetch sample_env (Some chrome_fetcher) post_request)
    = run (ChromeFetcher_Fetch sample_env (Some chrome_fetcher)
             (withMethod post_request "GET")).
Proof. split; [vm_compute; discriminate | reflexivity]. Qed.

(** C4 (amended): for a Request with empty form data the Browser strategy
    navigates plainly, as a GET, to the normalized URL under the deadline of
    five seconds: no interceptor is started, every navigation of the run
    goes to that URL, a run that returns markup has navigated there and
    received the DOM-content-loaded event, and the method of the Request
    changes nothing. *)
Theorem chrome_plain_navigation env f r :
  FormData r = "" →
  (∀ m, ChromeFetcher_Fetch env f (withMethod r m) = ChromeFetcher_Fetch env f r)
  ∧ (∀ out tr,
       run (ChromeFetcher_Fetch env f r) = (out, tr) →
       Forall (plainNav r) tr
       ∧ (∀ html, out = Ok html →
            EvCdp (CtxTimeout (5 * Second)) (Navigate (getURL r)) None ∈ tr
            ∧ EvCdp (CtxTimeout (5 * Second)) Recv None ∈ tr)).
Proof.
  intros Hfd. split; [done |]. intros out tr Hrun.
  exact (post_run _ _ _ _ (post_Fetch_plain env f r Hfd) Hrun).
Qed.

Lemma chrome_plain_navigation_witness :
  EvCdp (CtxTimeout (5 * Second)) (Navigate "http://example.com/a") None
  ∈ (run (ChromeFetcher_Fetch sample_env (Some chrome_fetcher) post_request)).2.
Proof.
  refine (proj1 (proj2 (proj2 (chrome_plain_navigation sample_env (Some chrome_fetcher)
            post_request _) _ _ _) _ _)).
  - reflexivity.
  - vm_compute. reflexivity.
  - reflexivity.
Defined.

(** ** Activation failures *)

Lemma elem_of_enableEvents c op rep l :
  EvCdp c op rep ∈ enableEvents l → c = CtxFetch ∧ ∃ d, op = Enable d ∧ (d, rep) ∈ l.
Proof.
  unfold enableEvents. intros H. apply list_elem_of_fmap in H as ([d rep'] & E & Hin).
  simpl in E. injection E as -> -> ->. eauto.
Qed.

Lemma firstErr_None l e : firstErr l = None → Some e ∉ l.
Proof.
  induction l as [|[e'|] l IH]; simpl; intros H Hin.
  - by apply elem_of_nil in Hin.
  - done.
  - apply elem_of_cons in Hin as [|Hin]; [done | by apply IH].
Qed.

Lemma enableEvents_failed l d e :
  firstErr l.*2 = None → EvCdp CtxFetch (Enable d) (Some e) ∉ enableEvents l.
Proof.
  intros Hnone Hin. apply elem_of_enableEvents in Hin as (_ & d' & [= <-] & Hin).
  apply (firstErr_None _ e Hnone).
  change (Some e) with ((d, Some e).2). by apply list_elem_of_fmap_2.
Qed.

Lemma enableEvents_all l ds d :
  l.*1 ≡ₚ ds → d ∈ ds → ∃ rep, EvCdp CtxFetch (Enable d) rep ∈ enableEvents l.
Proof.
  intros Hl Hd. rewrite <- Hl in Hd.
  apply list_elem_of_fmap in Hd as ([d' rep] & -> & Hin). exists rep.
  unfold enableEvents.
  change (EvCdp CtxFetch (Enable (d', rep).1) rep)
    with ((λ x : Domain * option liberr, EvCdp CtxFetch (Enable x.1) x.2) (d', rep)).
  by apply list_elem_of_fmap_2.
Qed.

Lemma Domain_all d : d ∈ [DOM; Network; Page; Runtime].
Proof. destruct d; repeat ((by left) || right). Qed.

Ltac post_step_eqn :=
  lazymatch goal with
  | |- post (returnErr ?e) _ => destruct e eqn:?; unfold returnErr; cbv beta iota
  | |- match ?x with _ => _ end => destruct x eqn:?
  | _ => post_step
  end.

(** The activations of a trace, in order, each with its reply. *)
Definition actOf (ev : Event) : option (Domain * option liberr) :=
  match ev with
  | EvCdp CtxFetch (Enable d) rep => Some (d, rep)
  | _ => None
  end.

Definition acts (tr : list Event) : list (Domain * option liberr) := omap actOf tr.

Definition notNav (ev : Event) : Prop :=
  match ev with
  | EvCdp _ (Navigate _) _ => False
  | _ => True
  end.

(** A failed activation, and a navigation. *)
Definition activationFailed (tr : list Event) : Prop :=
  ∃ d e, EvCdp CtxFetch (Enable d) (Some e) ∈ tr.

Definition navigated (tr : list Event) : Prop :=
  ∃ c u rep, EvCdp c (Navigate u) rep ∈ tr.

Lemma acts_app tr1 tr2 : acts (tr1 ++ tr2) = acts tr1 ++ acts tr2.
Proof. apply omap_app. Qed.

Lemma acts_enableEvents l : acts (enableEvents l) = l.
Proof. induction l as [|[d rep] l IH]; simpl; [done | by f_equal]. Qed.

Lemma elem_of_acts d rep tr : (d, rep) ∈ acts tr ↔ EvCdp CtxFetch (Enable d) rep ∈ tr.
Proof.
  unfold acts. rewrite list_elem_of_omap. split.
  - intros (ev & Hin & E). destruct ev as [| | | | |c op rep'| | | | | | | | |]; try done.
    destruct c; try done. destruct op; try done. simpl in E. by injection E as -> ->.
  - intros Hin. by eexists.
Qed.

Lemma firstErr_Some l e : Some e ∈ l → ∃ e', firstErr l = Some e'.
Proof.
  intros Hin. destruct (firstErr l) as [e'|] eqn:E; [by eexists |].
  by apply firstErr_None with (e := e) in E.
Qed.

Lemma notNav_navigated tr : Forall notNav tr → ¬ navigated tr.
Proof.
  intros H (c & u & rep & Hin). rewrite Forall_forall in H. exact (H _ Hin).
Qed.

Ltac simpl_acts :=
  repeat rewrite acts_app; repeat rewrite acts_enableEvents;
  cbn [acts omap list_omap actOf app]; rewrite ?app_nil_r.

Lemma post_Fetch_acts env f r :
  post (ChromeFetcher_Fetch env f r)
    (λ o evs, (acts evs = [] ∨ (acts evs).*1 ≡ₚ [DOM; Network; Page; Runtime])
              ∧ ∀ e, firstErr (acts evs).*2 = Some e →
                     o = Err (Lib e) ∧ Forall notNav evs).
Proof.
  unfold ChromeFetcher_Fetch, Fetch_navigate, navigate, runJSFromFile.
  repeat post_step_eqn.
  all: simpl_acts.
  all: (split; [first [by left | by right] |]).
  all: intros e' He'; try discriminate He'.
  all: try congruence.
  all: split; [congruence | solve_Forall].
Qed.

Lemma post_Fetch_activation env f r :
  post (ChromeFetcher_Fetch env f r)
    (λ o evs, activationFailed evs →
              (∃ e, o = Err (Lib e))
              ∧ ¬ navigated evs
              ∧ ∀ d, ∃ rep, EvCdp CtxFetch (Enable d) rep ∈ evs).
Proof.
  eapply post_mono; [apply post_Fetch_acts |].
  intros o evs [Hacts Hfirst] (d & e & Hin). apply elem_of_acts in Hin.
  destruct (firstErr_Some (acts evs).*2 e) as [e' He'].
  { change (Some e) with ((d, Some e).2). by apply list_elem_of_fmap_2. }
  destruct (Hfirst e' He') as [-> Hnav].
  split; [by eexists |]. split; [by apply notNav_navigated |].
  destruct Hacts as [Hnil|Hperm]; [rewrite Hnil in Hin; by apply elem_of_nil in Hin |].
  intros d'. pose proof (Domain_all d') as Hd. rewrite <- Hperm in Hd.
  apply list_elem_of_fmap in Hd as ([d'' rep] & -> & Hd). exists rep.
  by apply elem_of_acts.
Qed.

(** C8 (amended): the four activations are all or nothing: whenever one of
    them fails, [Fetch] returns an error and no navigation is attempted;
    all four activation calls are made all the same, a failure cancels
    none of them. *)
Theorem activation_all_or_nothing env f r out tr :
  run (ChromeFetcher_Fetch env f r) = (out, tr) →
  activationFailed tr →
  (∃ e, out = Err (Lib e))
  ∧ ¬ navigated tr
  ∧ ∀ d, ∃ rep, EvCdp CtxFetch (Enable d) rep ∈ tr.
Proof. intros Hrun. exact (post_run _ _ _ _ (post_Fetch_activation env f r) Hrun). Qed.

Lemma activation_all_or_nothing_witness :
  ¬ navigated (run (ChromeFetcher_Fetch dom_error_env (Some chrome_fetcher) page_request)).2.
Proof.
  refine (proj1 (proj2 (activation_all_or_nothing dom_error_env (Some chrome_fetcher)
            page_request
            (run (ChromeFetcher_Fetch dom_error_env (Some chrome_fetcher) page_request)).1
            _ _ _))).
  - vm_compute. reflexivity.
  - exists DOM, (LibErr "cdp.DOM: Enable: rpc error").
    vm_compute. repeat ((by left) || right).
Defined.

(** ** The selector *)

(** A [Fetcher] is an interface value: the type of the strategy and a
    pointer to its fetcher, which may be nil. *)
Inductive Fetcher :=
  | BaseF (bf : option BaseFetcher)
  | ChromeF (cf : option ChromeFetcher).

Definition isNil (f : Fetcher) : Prop :=
  match f with
  | BaseF bf => bf = None
  | ChromeF cf => cf = None
  end.

Section selector.
Context (env : Env).

(** [func newBaseFetcher() *BaseFetcher]: nil when the PROXY setting is
    present and is not a URL. *)
Definition newBaseFetcher : M (option BaseFetcher) :=
  let proxy := viper_GetString env "PROXY" in
  client ← (if decide (0 < len proxy) then
              match url_Parse env proxy with
              | Some err => emit (EvLog err);; mret None
              | None => mret (Some {| Proxy := Some proxy |})
              end
            else mret (Some {| Proxy := None |}));
  match client with
  | None => mret None
  | Some client => mret (Some {| bf_client := client; bf_jar := None |})
  end.

(** [func newChromeFetcher() *ChromeFetcher], with the same statements. *)
Definition newChromeFetcher : M (option ChromeFetcher) :=
  let proxy := viper_GetString env "PROXY" in
  client ← (if decide (0 < len proxy) then
              match url_Parse env proxy with
              | Some err => emit (EvLog err);; mret None
              | None => mret (Some {| Proxy := Some proxy |})
              end
            else mret (Some {| Proxy := None |}));
  match client with
  | None => mret None
  | Some client => mret (Some {| cf_client := client; cf_jar := None |})
  end.

(** [func newFetcher(t Type) Fetcher] *)
Definition newFetcher (t : string) : M Fetcher :=
  if decide (t = "Base") then bf ← newBaseFetcher; mret (BaseF bf)
  else if decide (t = "Chrome") then cf ← newChromeFetcher; mret (ChromeF cf)
  else raise (UnhandledType t).

(** A call of [Fetch] through the interface. *)
Definition Fetch (f : Fetcher) (request : Request) : M string :=
  match f with
  | BaseF bf => BaseFetcher_Fetch env bf request
  | ChromeF cf => ChromeFetcher_Fetch env cf request
  end.

(** The URL each strategy validates. *)
Definition validated (f : Fetcher) (request : Request) : string :=
  match f with
  | BaseF _ => getURL request
  | ChromeF _ => strings.TrimSpace (getURL request)
  end.

End selector.

Definition with_config (env : Env) (get : string → string) : Env :=
  {| viper_GetString := get;
     url_ParseRequestURI := url_ParseRequestURI env;
     url_Parse := url_Parse env;
     http_NewRequest_err := http_NewRequest_err env;
     client_Do := client_Do env;
     devt_Get := devt_Get env;
     rpcc_Dial := rpcc_Dial env;
     cdp_call := cdp_call env;
     cdp_GetDocument := cdp_GetDocument env;
     cdp_GetOuterHTML := cdp_GetOuterHTML env;
     cdp_CompileScript := cdp_CompileScript env;
     ioutil_ReadFile := ioutil_ReadFile env;
     schedule := schedule env |}.

(** The PROXY setting has no scheme. *)
Definition bad_proxy_env : Env :=
  with_config sample_env
    (λ key, if decide (key = "PROXY") then "://proxy:8080" else viper_GetString sample_env key).

Definition malformed_request : Request :=
  {| Type_ := ""; URL := "not a url"; Method := "GET";
     FormData := ""; UserToken := ""; InfiniteScroll := false |}.

(** C10 (as stated, refuted): with a PROXY setting that is not a URL the
    selector returns a nil fetcher, but a [Fetch] on it with a malformed
    URL returns the bad-request error: the URL is validated before the
    receiver is read. *)
Lemma nil_fetcher_bad_request :
  run (newFetcher bad_proxy_env "Base")
  = (Ok (BaseF None), [EvLog (LibErr "missing protocol scheme")])
  ∧ run (Fetch bad_proxy_env (BaseF None) malformed_request)
    = (Err (BadRequest (Some (LibErr "invalid URI for request"))), [])
  ∧ run (Fetch bad_proxy_env (ChromeF None) malformed_request)
    = (Err (BadRequest (Some (LibErr "invalid URI for request"))), []).
Proof. repeat split; vm_compute; reflexivity. Qed.

(** C10 (amended): when the PROXY setting is present and is not a URL,
    the selector logs the parse error and returns, for either strategy, a
    fetcher whose pointer is nil, neither an error nor a panic; a [Fetch]
    on it returns the bad-request error when the URL of the Request does
    not validate, and otherwise panics on the nil pointer, before any call
    to the outside. *)
Theorem bad_proxy_nil_fetcher env t e :
  0 < len (viper_GetString env "PROXY") →
  url_Parse env (viper_GetString env "PROXY") = Some e →
  t = "Base" ∨ t = "Chrome" →
  ∃ f, run (newFetcher env t) = (Ok f, [EvLog e])
       ∧ isNil f
       ∧ ∀ request,
           run (Fetch env f request)
           = match url_ParseRequestURI env (validated f request) with
             | Some err => (Err (BadRequest (Some err)), [])
             | None => (Panic NilDereference, [])
             end.
Proof.
  intros Hlen Hparse [-> | ->].
  - exists (BaseF None). repeat split.
    + unfold newFetcher, newBaseFetcher. simpl.
      destruct (decide (0 < len (viper_GetString env "PROXY"))); [| done].
      by rewrite Hparse.
    + intros request. simpl. by rewrite BaseFetcher_Fetch_run.
  - exists (ChromeF None). repeat split.
    + unfold newFetcher, newChromeFetcher. simpl.
      destruct (decide (0 < len (viper_GetString env "PROXY"))); [| done].
      by rewrite Hparse.
    + intros request. simpl. unfold ChromeFetcher_Fetch.
      by destruct (url_ParseRequestURI env _).
Qed.

Lemma bad_proxy_nil_fetcher_witness :
  ∃ f, run (newFetcher bad_proxy_env "Chrome")
       = (Ok f, [EvLog (LibErr "missing protocol scheme")])
       ∧ isNil f
       ∧ ∀ request,
           run (Fetch bad_proxy_env f request)
           = match url_ParseRequestURI bad_proxy_env (validated f request) with
             | Some err => (Err (BadRequest (Some err)), [])
             | None => (Panic NilDereference, [])
             end.
Proof.
  apply (bad_proxy_nil_fetcher bad_proxy_env "Chrome" (LibErr "missing protocol scheme")).
  - vm_compute. lia.
  - reflexivity.
  - by right.
Defined.

(** ** Further properties of the Direct strategy *)

(** The cookie-jar accessors: [getCookieJar] returns the field,
    [setCookieJar] assigns it; both go through the receiver. *)
Definition BaseFetcher_getCookieJar (bf : option BaseFetcher) : outcome (option Jar) :=
  match bf with
  | Some b => Ok (bf_jar b)
  | None => Panic NilDereference
  end.

Definition BaseFetcher_setCookieJar (bf : option BaseFetcher) (jar : option Jar)
  : outcome BaseFetcher :=
  match bf with
  | Some b => Ok {| bf_client := bf_client b; bf_jar := jar |}
  | None => Panic NilDereference
  end.

Definition ChromeFetcher_getCookieJar (cf : option ChromeFetcher) : outcome (option Jar) :=
  match cf with
  | Some c => Ok (cf_jar c)
  | None => Panic NilDereference
  end.

Definition ChromeFetcher_setCookieJar (cf : option ChromeFetcher) (jar : option Jar)
  : outcome ChromeFetcher :=
  match cf with
  | Some c => Ok {| cf_client := cf_client c; cf_jar := jar |}
  | None => Panic NilDereference
  end.

Definition isHttpDo (ev : Event) : bool :=
  match ev with
  | EvHttpDo _ _ => true
  | _ => false
  end.

(** A successful fetch comes from a response with status 200, and returns
    the body of that response; the request was the only call to the
    network. *)
Theorem BaseFetcher_Fetch_ok env bf r body tr :
  run (BaseFetcher_Fetch env bf r) = (Ok body, tr) →
  ∃ req resp,
    filter (λ ev, isHttpDo ev = true) tr = [EvHttpDo req (inr resp)]
    ∧ StatusCode resp = 200%Z ∧ body = Body resp.
Proof.
  rewrite BaseFetcher_Fetch_run.
  destruct (url_ParseRequestURI env (getURL r)); [done |].
  destruct bf as [b|]; [| done].
  destruct (newRequest env r) as [req| |]; [| done | done]. cbv zeta.
  destruct (client_Do env (jarTrace (bf_jar b)) req) as [err|resp] eqn:E; [done |].
  simpl. destruct (decide (StatusCode resp ≠ 200%Z)) as [|Hn]; [done |].
  intros [= <- <-]. exists req, resp. apply dec_stable in Hn.
  split; [| done]. by destruct (bf_jar b).
Qed.

Lemma BaseFetcher_Fetch_ok_witness :
  ∃ req resp,
    filter (λ ev, isHttpDo ev = true)
      (run (BaseFetcher_Fetch sample_env (Some plain_fetcher) page_request)).2
    = [EvHttpDo req (inr resp)]
    ∧ StatusCode resp = 200%Z ∧ "<html>ok</html>" = Body resp.
Proof.
  apply (BaseFetcher_Fetch_ok sample_env (Some plain_fetcher) page_request).
  vm_compute. reflexivity.
Defined.

(** A failure of the transport (DNS, connection, TLS, timeout) is
    returned as a bad request that carries the cause; there is no second
    attempt. *)
Theorem BaseFetcher_transport_failure env bf r out tr req err :
  run (BaseFetcher_Fetch env bf r) = (out, tr) →
  EvHttpDo req (inl err) ∈ tr →
  out = Err (BadRequest (Some err))
  ∧ length (filter (λ ev, isHttpDo ev = true) tr) = 1.
Proof.
  intros Hrun Hin.
  destruct (BaseFetcher_Fetch_request _ _ _ _ _ _ _ Hrun Hin) as [Hreq ->].
  split; [done |]. rewrite BaseFetcher_Fetch_run, Hreq in Hrun.
  destruct (url_ParseRequestURI env (getURL r)).
  { injection Hrun as _ <-. by apply elem_of_nil in Hin. }
  destruct bf as [b|].
  2: { injection Hrun as _ <-. by apply elem_of_nil in Hin. }
  cbv zeta in Hrun. injection Hrun as _ <-. by destruct (bf_jar b).
Qed.

Definition refused_env : Env :=
  with_client_Do sample_env (λ tr req, inl (LibErr "dial tcp: connection refused")).

Lemma BaseFetcher_transport_failure_witness :
  (run (BaseFetcher_Fetch refused_env (Some plain_fetcher) page_request)).1
  = Err (BadRequest (Some (LibErr "dial tcp: connection refused"))).
Proof.
  refine (proj1 (BaseFetcher_transport_failure refused_env (Some plain_fetcher) page_request
            _ (run (BaseFetcher_Fetch refused_env (Some plain_fetcher) page_request)).2
            _ (LibErr "dial tcp: connection refused") _ _)).
  - vm_compute. reflexivity.
  - vm_compute. left.
Defined.

(** Without form data the request carries the method of the Request (GET
    when it is empty), no body and no header. *)
Theorem BaseFetcher_plain_request env bf r out tr req reply :
  FormData r = "" →
  run (BaseFetcher_Fetch env bf r) = (out, tr) →
  EvHttpDo req reply ∈ tr →
  reqMethod req = (if decide (Method r = "") then "GET" else Method r)
  ∧ reqBody req = None
  ∧ reqHeader req = ∅
  ∧ http_NewRequest_err env (Method r) (URL r) = None.
Proof.
  intros Hfd Hrun Hin.
  destruct (BaseFetcher_Fetch_request _ _ _ _ _ _ _ Hrun Hin) as [Hreq _].
  unfold newRequest, http_NewRequest in Hreq.
  destruct (decide (FormData r = "")); [| done].
  destruct (http_NewRequest_err env (Method r) (URL r)); [done |].
  by injection Hreq as <-.
Qed.

Lemma BaseFetcher_plain_request_witness :
  ∃ req reply,
    EvHttpDo req reply ∈ (run (BaseFetcher_Fetch sample_env (Some plain_fetcher) page_request)).2
    ∧ reqMethod req = "GET" ∧ reqBody req = None.
Proof.
  eexists _, _. split; [vm_compute; left |].
  pose proof (BaseFetcher_plain_request sample_env (Some plain_fetcher) page_request
    _ _ _ _ eq_refl eq_refl (list_elem_of_here _ _)) as (H1 & H2 & _).
  split; [exact H1 | exact H2].
Defined.

(** A URL that does not validate: either strategy fails with a bad request
    that carries the parse error, before any call to the network or to the
    browser, whatever the fetcher (even a nil one). *)
Theorem malformed_URL_bad_request env f r err :
  url_ParseRequestURI env (validated f r) = Some err →
  run (Fetch env f r) = (Err (BadRequest (Some err)), []).
Proof.
  intros Hv. destruct f as [bf|cf]; simpl in *.
  - by rewrite BaseFetcher_Fetch_run, Hv.
  - unfold ChromeFetcher_Fetch. by rewrite Hv.
Qed.

Lemma malformed_URL_bad_request_witness :
  run (Fetch sample_env (ChromeF (Some chrome_fetcher)) malformed_request)
  = (Err (BadRequest (Some (LibErr "invalid URI for request"))), []).
Proof. apply malformed_URL_bad_request. reflexivity. Defined.

(** The jar handed over with [setCookieJar] is the one [getCookieJar]
    returns and the one the next [Fetch] attaches to the client, before
    the request is sent. *)
Theorem BaseFetcher_jar_bound env b jar r :
  url_ParseRequestURI env (getURL r) = None →
  ∃ b',
    BaseFetcher_setCookieJar (Some b) (Some jar) = Ok b'
    ∧ BaseFetcher_getCookieJar (Some b') = Ok (Some jar)
    ∧ ∃ rest, (run (BaseFetcher_Fetch env (Some b') r)).2 = EvBindJar jar :: rest
              ∧ Forall (λ ev, ∀ j, ev ≠ EvBindJar j) rest.
Proof.
  intros Hv. eexists. split; [reflexivity |]. split; [reflexivity |].
  rewrite BaseFetcher_Fetch_run, Hv. simpl.
  destruct (newRequest env r) as [req| |]; simpl; eexists; (split; [reflexivity |]).
  - by repeat constructor.
  - constructor.
  - constructor.
Qed.

Lemma BaseFetcher_jar_bound_witness :
  ∃ b',
    BaseFetcher_setCookieJar (Some plain_fetcher) (Some 7) = Ok b'
    ∧ BaseFetcher_getCookieJar (Some b') = Ok (Some 7)
    ∧ ∃ rest, (run (BaseFetcher_Fetch sample_env (Some b') page_request)).2
              = EvBindJar 7 :: rest
              ∧ Forall (λ ev, ∀ j, ev ≠ EvBindJar j) rest.
Proof. apply BaseFetcher_jar_bound. reflexivity. Defined.

(** ** Further properties of the Browser strategy *)

Lemma elem_of_enableEvents_inv ev l :
  ev ∈ enableEvents l → ∃ d rep, ev = EvCdp CtxFetch (Enable d) rep.
Proof.
  unfold enableEvents. intros H. apply list_elem_of_fmap in H as ([d rep] & -> & _).
  by eexists _, _.
Qed.

(** Take a membership in a list of events apart; the cases in which the
    event would have to be another event are closed. *)
Ltac inv_in H :=
  first [ apply elem_of_nil in H; destruct H
        | apply elem_of_app in H; destruct H as [H|H]; inv_in H
        | apply elem_of_cons in H; destruct H as [H|H];
          [try discriminate H | inv_in H]
        | apply elem_of_enableEvents_inv in H; destruct H as (? & ? & H);
          try discriminate H
        | idtac ].

Ltac solve_suffix :=
  first [ reflexivity
        | apply suffix_cons_r; solve_suffix
        | apply suffix_app_r; solve_suffix ].

(** Projections of a trace: the events for which [f] gives a value. *)
Lemma omap_enableEvents {B} (f : Event → option B) l :
  (∀ d rep, f (EvCdp CtxFetch (Enable d) rep) = None) → omap f (enableEvents l) = [].
Proof. intros H. induction l as [|[d rep] l IH]; simpl; [done | by rewrite H]. Qed.

Ltac norm_trace :=
  cbn [app]; rewrite <- ?app_assoc; cbn [app].

Definition outerOf (ev : Event) : option (Ctx * NodeID * string) :=
  match ev with
  | EvGetOuterHTML c root (inr html) => Some (c, root, html)
  | _ => None
  end.

Definition docOf (ev : Event) : option (Ctx * NodeID) :=
  match ev with
  | EvGetDocument c (inr root) => Some (c, root)
  | _ => None
  end.

Lemma post_Fetch_result env f r :
  post (ChromeFetcher_Fetch env f r)
    (λ o evs,
       match o with
       | Ok html => ∃ root, omap docOf evs = [(CtxFetch, root)]
                            ∧ omap outerOf evs = [(CtxFetch, root, html)]
       | _ => omap outerOf evs = []
       end).
Proof.
  unfold ChromeFetcher_Fetch, Fetch_navigate, navigate, runJSFromFile.
  repeat post_step_eqn.
  all: try done.
  all: norm_trace.
  all: cbn [omap list_omap outerOf docOf].
  all: rewrite ?omap_app.
  all: repeat rewrite omap_enableEvents by (intros; reflexivity).
  all: cbn [omap list_omap outerOf docOf app].
  all: first [reflexivity | by eexists].
Qed.
